(** * basic_example_1: uniaxial extension of a bar

    A shallow embedding of [examples/basic_example_1/__main__.py], the
    driver script that fabricates displacement and traction measurements
    for a Neo-Hookean box under uniaxial tension and hands a cost
    functional to the [invsolve] inverse solver.

    Python floats are IEEE binary64 numbers; they are modelled by Rocq's
    primitive floats, which are the same numbers with the same rounding.
    Python ints are [Z] (or [nat] where the script only counts).  The
    symbolic objects the script builds with the finite-element framework
    (expressions, forms, boundary conditions) are modelled as the trees
    of operator applications the script writes, and given their real
    values by an evaluation function. *)

From Stdlib Require Import Reals Lra FunctionalExtensionality.
From Stdlib Require Import Floats ZArith String List Bool Lia FinFun.
From Stdlib Require Import Decimal DecimalString DecimalZ Ascii.
Import ListNotations.

Set Warnings "-inexact-float".

Local Open Scope float_scope.

(** ** Python and numpy primitives used by the script *)

(** Exceptions the modelled code can raise. *)
Inductive exn : Type :=
| IndexError
| ValueError (msg : string).

(** The result of running a statement: it completes with a value or it
    raises. *)
Inductive outcome (A : Type) : Type :=
| Return (a : A)
| Raise (e : exn).

Arguments Return {A} a.
Arguments Raise {A} e.

(** The conversion of a non-negative Python int to a float
    ([numpy.arange(0, num, dtype=float64)] holds these values). *)
Definition float_of_nat (n : nat) : float :=
  PrimFloat.of_uint63 (Uint63.of_Z (Z.of_nat n)).

(** [numpy.arange(0, num)] as float64. *)
Definition arange (num : nat) : list float :=
  map float_of_nat (seq 0 num).

(** Assignment to the last element of an array, [y[-1] = v]; numpy raises
    on an empty array, and the caller below only assigns when the array
    has more than one element. *)
Fixpoint set_last (y : list float) (v : float) : list float :=
  match y with
  | [] => []
  | [_] => [v]
  | x :: rest => x :: set_last rest v
  end.

(** [numpy.linspace(start, stop, num)] with the default [endpoint=True],
    following numpy's implementation step by step: the samples are
    [arange(num) * step + start] with [step = (stop - start) / (num - 1)]
    (the division by [num - 1] is applied to the samples first when the
    step underflows to zero), and the last sample is then overwritten
    with [stop]. *)
Definition linspace (start stop : float) (num : nat) : list float :=
  let div := (num - 1)%nat in
  let delta := stop - start in
  let y := arange num in
  let y :=
    if (0 <? div)%nat then
      let step := delta / float_of_nat div in
      if PrimFloat.eqb step 0
      then map (fun yi => yi / float_of_nat div * delta) y
      else map (fun yi => yi * step) y
    else map (fun yi => yi * delta) y in
  let y := map (fun yi => yi + start) y in
  if (1 <? num)%nat then set_last y stop else y.

(** Indexing a one-dimensional numpy array with a Python int: a negative
    index counts from the end, and an index outside [-len, len) raises
    [IndexError]. *)
Definition getitem (a : list float) (i : Z) : outcome float :=
  let n := Z.of_nat (length a) in
  let k := if (i <? 0)%Z then (i + n)%Z else i in
  if ((0 <=? k)%Z && (k <? n)%Z)%bool then
    match nth_error a (Z.to_nat k) with
    | Some x => Return x
    | None => Raise IndexError
    end
  else Raise IndexError.

(** [range(start, stop)] as the list of the ints it yields. *)
Definition range (start stop : Z) : list Z :=
  map (fun k => (start + Z.of_nat k)%Z) (seq 0 (Z.to_nat (stop - start))).

(** ** Problem parameters

    The constants under the script's heading "Problem parameters" that
    the modelled code reads.  [source_parameters] holds the values the
    script assigns. *)
Record problem_parameters : Type := {
  FORCE_COST_FORMULATION_METHOD : string;
  NUM_OBSERVATIONS : nat;
  SMALL_DISPLACEMENTS : bool;
  PLOT_RESULTS : bool;
  SAVE_RESULTS : bool
}.

Definition source_parameters : problem_parameters := {|
  FORCE_COST_FORMULATION_METHOD := "cost";
  NUM_OBSERVATIONS := 4;
  SMALL_DISPLACEMENTS := true;
  PLOT_RESULTS := true;
  SAVE_RESULTS := true
|}.

(** ** Measurements (fabricated) *)

(** Box problem domain. *)
Definition W : float := 2.0.
Definition L : float := 1.0.
Definition H : float := 1.0.

(** Maximum horizontal displacement of the right face. *)
Definition uxD_max (p : problem_parameters) : float :=
  if SMALL_DISPLACEMENTS p then 1e-5 else 1e-1.

(** Fabricated model parameters. *)
Definition E_target : float := 1.0.
Definition nu_target : float := 0.3.

(** Engineering strain and right-face traction. *)
Definition ex_max (p : problem_parameters) : float := uxD_max p / W.
Definition Tx_max (p : problem_parameters) : float := E_target * ex_max p.

Definition measurements_Tx (p : problem_parameters) : list float :=
  linspace 0 (Tx_max p) (NUM_OBSERVATIONS p + 1).

Definition measurements_uxD (p : problem_parameters) : list float :=
  linspace 0 (uxD_max p) (NUM_OBSERVATIONS p + 1).

(** The user parameters of the three [Expression] objects [u_msr],
    [T_msr] and [uxD_msr]: the mutable state [measurement_setter]
    writes to. *)
Record expression_parameters : Type := {
  u_msr_ex : float;
  u_msr_nu : float;
  T_msr_value_x : float;
  uxD_msr_value : float
}.

(** The parameters as the three [Expression] constructors set them. *)
Definition initial_expression_parameters : expression_parameters := {|
  u_msr_ex := 0.0;
  u_msr_nu := nu_target;
  T_msr_value_x := 0.0;
  uxD_msr_value := 0.0
|}.

(** Statements that read and write the expression parameters and may
    raise: the state reached is kept when a statement raises, as in
    Python. *)
Definition stmt (A : Type) : Type :=
  expression_parameters -> outcome A * expression_parameters.

Definition bind {A B} (m : stmt A) (k : A -> stmt B) : stmt B :=
  fun s =>
    match m s with
    | (Return a, s') => k a s'
    | (Raise e, s') => (Raise e, s')
    end.

Definition lift {A} (o : outcome A) : stmt A := fun s => (o, s).

Definition modify (f : expression_parameters -> expression_parameters)
  : stmt unit :=
  fun s => (Return tt, f s).

Notation "x <- m ;; k" := (bind m (fun x => k))
  (at level 61, m at next level, right associativity).

Definition set_T_msr_value_x (v : float) : stmt unit :=
  modify (fun s => {| u_msr_ex := u_msr_ex s; u_msr_nu := u_msr_nu s;
                      T_msr_value_x := v;
                      uxD_msr_value := uxD_msr_value s |}).

Definition set_u_msr_ex (v : float) : stmt unit :=
  modify (fun s => {| u_msr_ex := v; u_msr_nu := u_msr_nu s;
                      T_msr_value_x := T_msr_value_x s;
                      uxD_msr_value := uxD_msr_value s |}).

Definition set_uxD_msr_value (v : float) : stmt unit :=
  modify (fun s => {| u_msr_ex := u_msr_ex s; u_msr_nu := u_msr_nu s;
                      T_msr_value_x := T_msr_value_x s;
                      uxD_msr_value := v |}).

(** Set measurements at index [i]. *)
Definition measurement_setter (p : problem_parameters) (i : Z) : stmt unit :=
  t <- lift (getitem (measurements_Tx p) i) ;;
  _ <- set_T_msr_value_x t ;;
  uxD_i <- lift (getitem (measurements_uxD p) i) ;;
  _ <- set_u_msr_ex (uxD_i / W) ;;
  uxD_i' <- lift (getitem (measurements_uxD p) i) ;;
  set_uxD_msr_value uxD_i'.

(** ** Inverse problem: observation times *)

Definition observation_times (p : problem_parameters) : list Z :=
  range 1 (Z.of_nat (NUM_OBSERVATIONS p) + 1).

(** ** Symbolic expressions and forms

    The finite-element framework overloads Python's operators to build
    symbolic expressions.  [expr] has one constructor per operator or
    framework function the script applies, so a definition below is the
    tree of applications the script's line performs, with Python's
    precedence and associativity. *)

(** The coefficient objects the script creates: the displacement field
    [u = Function(V)], the three measurement [Expression]s, the two
    material [Constant]s, the constants of the boundary conditions, and
    one constraint multiplier per traction measurement. *)
Inductive coefficient : Type :=
| coef_u
| coef_u_msr
| coef_T_msr
| coef_uxD_msr
| coef_E
| coef_nu
| coef_zero
| coef_zeros
| coef_multiplier (k : nat).

Inductive expr : Type :=
| FloatValue (x : float)                 (* a Python float operand *)
| IntValue (n : Z)                       (* a Python int operand *)
| Coefficient (c : coefficient)
| Identity (dim : nat)                   (* dolfin.Identity(dim) *)
| FacetNormal                            (* dolfin.FacetNormal(mesh) *)
| Grad (a : expr)                        (* dolfin.grad(a) *)
| Var (label : nat) (a : expr)           (* dolfin.variable(a) *)
| Transposed (a : expr)                  (* a.T *)
| Det (a : expr)                         (* dolfin.det(a) *)
| Tr (a : expr)                          (* dolfin.tr(a) *)
| Ln (a : expr)                          (* dolfin.ln(a) *)
| Add (a b : expr)                       (* a + b *)
| Sub (a b : expr)                       (* a - b *)
| Mul (a b : expr)                       (* a * b *)
| Div (a b : expr)                       (* a / b *)
| Pow (a b : expr)                       (* a ** b *)
| Dot (a b : expr)                       (* dolfin.dot(a, b) *)
| Indexed (a : expr) (i : Z)             (* a[i] *)
| VariableDerivative (f v : expr)        (* dolfin.diff(f, v) *)
| CoefficientDerivative (f w : expr).    (* integrand of dolfin.derivative(form, w) *)

(** ** Mesh *)

(** [int(x)] for a finite float: truncation toward zero.  (Python raises
    on an infinity or a NaN; the script applies [int] to finite values
    only, and the model returns 0 there.) *)
Definition int_of_float (x : float) : Z :=
  match Prim2SF x with
  | S754_finite sign m e =>
      let magnitude :=
        if (0 <=? e)%Z then (Z.pos m * 2 ^ e)%Z
        else (Z.pos m / 2 ^ (- e))%Z in
      if sign then (- magnitude)%Z else magnitude
  | _ => 0%Z
  end.

Definition float_of_Z (n : Z) : float :=
  if (n <? 0)%Z then - PrimFloat.of_uint63 (Uint63.of_Z (- n))
  else PrimFloat.of_uint63 (Uint63.of_Z n).

Record Point : Type := { x_0 : float; x_1 : float; x_2 : float }.

(** [dolfin.BoxMesh(p0, p1, nx, ny, nz)]: two opposite corners and the
    number of cells in each direction. *)
Record BoxMesh : Type := {
  corner_0 : Point;
  corner_1 : Point;
  cells_x : Z;
  cells_y : Z;
  cells_z : Z
}.

Definition nz : Z := 10.
Definition nx : Z := Z.max (int_of_float (float_of_Z nz * W / H)) 1.
Definition ny : Z := Z.max (int_of_float (float_of_Z nz * L / H)) 1.

Definition mesh : BoxMesh := {|
  corner_0 := {| x_0 := float_of_Z 0; x_1 := float_of_Z 0;
                 x_2 := float_of_Z 0 |};
  corner_1 := {| x_0 := W; x_1 := L; x_2 := H |};
  cells_x := nx;
  cells_y := ny;
  cells_z := nz
|}.

(** The conditions of the script's [CompiledSubDomain]s: conjunctions of
    [on_boundary] and [near(x[k], c)], the constant [c] being the float
    the f-string formats into the condition. *)
Inductive condition : Type :=
| on_boundary
| near (axis : nat) (c : float)
| both (a b : condition).

Definition boundary_fix : condition := both on_boundary (near 0 0.0).
Definition boundary_msr : condition := both on_boundary (near 0 W).
Definition boundary_dic : condition := both on_boundary (near 1 L).

Definition fixed_vertex_000 : condition :=
  both (both (near 0 0.0) (near 1 0.0)) (near 2 0.0).

Definition fixed_vertex_010 : condition :=
  both (both (near 0 0.0) (near 1 L)) (near 2 0.0).

(** The framework's tolerance [DOLFIN_EPS] and its test
    [near(x, x0) = x0 - DOLFIN_EPS <= x <= x0 + DOLFIN_EPS]. *)
Definition DOLFIN_EPS : float := 3.0e-16.

Definition near_value (x x0 : float) : bool :=
  PrimFloat.leb (x0 - DOLFIN_EPS) x && PrimFloat.leb x (x0 + DOLFIN_EPS).

Definition coordinate (x : Point) (axis : nat) : float :=
  match axis with
  | 0%nat => x_0 x
  | 1%nat => x_1 x
  | _ => x_2 x
  end.

(** Whether a point satisfies a subdomain's condition; [on_bdry] is the
    flag the framework passes for a point of the boundary. *)
Fixpoint inside (c : condition) (x : Point) (on_bdry : bool) : bool :=
  match c with
  | on_boundary => on_bdry
  | near axis x0 => near_value (coordinate x axis) x0
  | both a b => inside a x on_bdry && inside b x on_bdry
  end.

(** The vertices of a box mesh: the framework places vertex
    [(ix, iy, iz)], for [ix <= nx], [iy <= ny] and [iz <= nz], at
    [a + ix*(b - a)/nx] in each direction, [a] and [b] being the
    coordinates of the two corners. *)
Definition grid_coordinate (a b : float) (i : nat) (n : Z) : float :=
  a + float_of_nat i * (b - a) / float_of_Z n.

Definition vertex (m : BoxMesh) (ix iy iz : nat) : Point :=
  {| x_0 := grid_coordinate (x_0 (corner_0 m)) (x_0 (corner_1 m))
                            ix (cells_x m);
     x_1 := grid_coordinate (x_1 (corner_0 m)) (x_1 (corner_1 m))
                            iy (cells_y m);
     x_2 := grid_coordinate (x_2 (corner_0 m)) (x_2 (corner_1 m))
                            iz (cells_z m) |}.

(** A test applied to every vertex of a box mesh. *)
Definition every_vertex (m : BoxMesh)
    (test : nat -> nat -> nat -> Point -> bool) : bool :=
  forallb
    (fun ix =>
       forallb
         (fun iy =>
            forallb
              (fun iz => test ix iy iz (vertex m ix iy iz))
              (seq 0 (Z.to_nat (cells_z m) + 1)))
         (seq 0 (Z.to_nat (cells_y m) + 1)))
    (seq 0 (Z.to_nat (cells_x m) + 1)).

(** The facet markers: [set_all(0)] followed by the three [mark] calls,
    in the order the script makes them. *)
Definition id_subdomain_fix : nat := 1.
Definition id_subdomain_msr : nat := 2.
Definition id_subdomains_dic : nat := 3.

Definition boundary_markers : list (condition * nat) :=
  [ (boundary_fix, id_subdomain_fix);
    (boundary_msr, id_subdomain_msr);
    (boundary_dic, id_subdomains_dic) ].

(** The marker of a facet, given the points the framework tests (the
    facet's vertices and its midpoint): each [mark] call overwrites the
    marker of a facet all of whose points satisfy the condition. *)
Definition marker_of (marks : list (condition * nat))
    (facet : list Point) (on_bdry : bool) : nat :=
  fold_left
    (fun m mark =>
       if forallb (fun x => inside (fst mark) x on_bdry) facet
       then snd mark else m)
    marks 0%nat.

(** The subdomain conditions that were given marker [id]. *)
Definition marked_with (marks : list (condition * nat)) (id : nat)
  : list condition :=
  map fst (filter (fun mark => Nat.eqb (snd mark) id) marks).

(** ** Integration measures *)

Inductive integral_type : Type := cell_integral | exterior_facet_integral.

(** A measure: [dx] or [ds], restricted to the facets or cells that carry
    [subdomain_id] in [subdomain_data] when these are given. *)
Record Measure : Type := {
  integral_kind : integral_type;
  subdomain_id : option nat;
  subdomain_data : option (list (condition * nat))
}.

Definition dx : Measure :=
  {| integral_kind := cell_integral;
     subdomain_id := None; subdomain_data := None |}.

Definition ds : Measure :=
  {| integral_kind := exterior_facet_integral;
     subdomain_id := None; subdomain_data := None |}.

Definition ds_msr_T : Measure :=
  {| integral_kind := exterior_facet_integral;
     subdomain_id := Some id_subdomain_msr;
     subdomain_data := Some boundary_markers |}.

Definition ds_msr_u : Measure :=
  {| integral_kind := exterior_facet_integral;
     subdomain_id := Some id_subdomains_dic;
     subdomain_data := Some boundary_markers |}.

(** A form is a sum of integrals. *)
Record Integral : Type := {
  integrand : expr;
  measure : Measure
}.

Definition Form : Type := list Integral.

(** [e * measure]. *)
Definition integrate_over (e : expr) (m : Measure) : Form :=
  [ {| integrand := e; measure := m |} ].

(** [c * form] for a scalar expression [c]: every integrand is scaled. *)
Definition scale_form (c : expr) (f : Form) : Form :=
  map (fun i => {| integrand := Mul c (integrand i);
                   measure := measure i |}) f.

(** What Python's [sum] of forms returns: the int [0] it starts from
    when there is nothing to add, a form otherwise ([0 + form] is the
    form, and [form + form] joins the integrals). *)
Inductive summed : Type :=
| zero_int
| a_form (f : Form).

Definition add_form (acc : summed) (f : Form) : summed :=
  match acc with
  | zero_int => a_form f
  | a_form g => a_form (g ++ f)
  end.

Definition sum_forms (fs : list Form) : summed :=
  fold_left add_form fs zero_int.

(** [a + b] where each operand is a form or the int [0] of an empty sum. *)
Definition add_summed (a b : summed) : summed :=
  match b with
  | zero_int => a
  | a_form g => add_form a g
  end.

(** [dolfin.derivative(form, w)]: the derivative of every integrand in
    the direction of a variation of [w]. *)
Definition derivative (f : Form) (w : expr) : Form :=
  map (fun i => {| integrand := CoefficientDerivative (integrand i) w;
                   measure := measure i |}) f.

(** ** Finite element function spaces *)

(** The vector space [V] and its component subspaces from [V.split()]. *)
Inductive FunctionSpace : Type :=
| V
| Vx
| Vy
| Vz.

(** Displacement field. *)
Definition u : expr := Coefficient coef_u.

(** The measurement expressions of the section "Measurements". *)
Definition u_msr : expr := Coefficient coef_u_msr.
Definition T_msr : expr := Coefficient coef_T_msr.
Definition uxD_msr : expr := Coefficient coef_uxD_msr.

Definition using_subdims_u_msr : list Z := [0; 1]%Z.
Definition using_subdims_T_msr : list Z := [0]%Z.

(** ** Dirichlet boundary conditions *)

(** Where a boundary condition applies: on the facets carrying an id in
    a marker function, or at the points of a subdomain ("pointwise"). *)
Inductive bc_region : Type :=
| marked_facets (markers : list (condition * nat)) (id : nat)
| pointwise (subdomain : condition).

Record DirichletBC : Type := {
  bc_space : FunctionSpace;
  bc_value : expr;
  bc_where : bc_region
}.

Definition zero : expr := Coefficient coef_zero.
Definition zeros : expr := Coefficient coef_zeros.

Definition bcs : list DirichletBC :=
  [ {| bc_space := Vx; bc_value := zero;
       bc_where := marked_facets boundary_markers id_subdomain_fix |};
    {| bc_space := Vx; bc_value := uxD_msr;
       bc_where := marked_facets boundary_markers id_subdomain_msr |};
    {| bc_space := V; bc_value := zeros;
       bc_where := pointwise fixed_vertex_000 |};
    {| bc_space := Vz; bc_value := zero;
       bc_where := pointwise fixed_vertex_010 |} ].

(** The displacement components a space constrains. *)
Definition components_of (space : FunctionSpace) : list nat :=
  match space with
  | V => [0; 1; 2]%nat
  | Vx => [0]%nat
  | Vy => [1]%nat
  | Vz => [2]%nat
  end.

(** What a boundary condition prescribes: the displacement components
    of its space and their value. *)
Definition constraint_of (bc : DirichletBC) : list nat * expr :=
  (components_of (bc_space bc), bc_value bc).

(** ** Hyperelastic material model *)

Definition E : expr := Coefficient coef_E.
Definition nu : expr := Coefficient coef_nu.

(** Displacement dimension, [len(u)]: the number of components of a
    vector field on the three-dimensional box mesh. *)
Definition d : Z := 3.

Definition I : expr := Identity (Z.to_nat d).

(** The deformation gradient.  (The script later rebinds the name [F] to
    the equilibrium form, [F_equilibrium] below; every use of [F] in
    this section precedes the rebinding.) *)
Definition F : expr := Var 0 (Add I (Grad u)).

(** [C = F.T*F].  (The script later rebinds the name [C] to the list of
    reaction-force misfit forms, [C] below.) *)
Definition C_strain : expr := Mul (Transposed F) F.
Definition J : expr := Det F.
Definition I1 : expr := Tr C_strain.

(** Lame material parameters. *)
Definition lm : expr :=
  Div (Mul E nu)
      (Mul (Add (FloatValue 1.0) nu)
           (Sub (FloatValue 1.0) (Mul (FloatValue 2.0) nu))).

Definition mu : expr :=
  Div E (Add (FloatValue 2.0) (Mul (FloatValue 2.0) nu)).

(** Energy density of a Neo-Hookean material model. *)
Definition psi : expr :=
  Add (Mul (Div mu (FloatValue 2.0))
           (Sub (Sub I1 (IntValue d)) (Mul (FloatValue 2.0) (Ln J))))
      (Mul (Div lm (FloatValue 2.0))
           (Pow (Ln J) (IntValue 2))).

(** First Piola-Kirchhoff. *)
Definition pk1 : expr := VariableDerivative psi F.

(** Boundary traction. *)
Definition N : expr := FacetNormal.
Definition PN : expr := Dot pk1 N.

(** Potential energy. *)
Definition Pi : Form := integrate_over psi dx.

(** Equilibrium problem (the script's second binding of [F]). *)
Definition F_equilibrium : Form := derivative Pi u.

(** ** Model cost *)

(** Observed displacement and observed tractions. *)
Definition u_obs : expr := u.
Definition T_obs : expr := PN.

(** Displacement misfit cost. *)
Definition J_u : summed :=
  sum_forms
    (map (fun i =>
            integrate_over
              (Pow (Sub (Indexed u_obs i) (Indexed u_msr i)) (IntValue 2))
              ds_msr_u)
         using_subdims_u_msr).

(** Reaction force misfit (the script's second binding of [C]). *)
Definition C : list Form :=
  map (fun i =>
         integrate_over (Sub (Indexed T_obs i) (Indexed T_msr i)) ds_msr_T)
      using_subdims_T_msr.

(** What the selection of the cost formulation binds. *)
Record cost_formulation : Type := {
  constraint_multipliers : list expr;
  Q : summed;
  L_constraint : option Form      (* the script's second binding of [L] *)
}.

(** [zip(a, b)]. *)
Definition zip {A B} (a : list A) (b : list B) : list (A * B) := combine a b.

(** [[Constant(1e-9) for _ in using_subdims_T_msr]]: a new constant per
    traction measurement. *)
Definition new_constraint_multipliers : list expr :=
  map (fun k => Coefficient (coef_multiplier k))
      (seq 0 (length using_subdims_T_msr)).

(** [J_c] of the "constraint" branch: the multipliers are new
    constants, and [J_c = sum(mult_i*C_i for mult_i, C_i in zip(...))]. *)
Definition J_c : summed :=
  sum_forms (map (fun mc => scale_form (fst mc) (snd mc))
                 (zip new_constraint_multipliers C)).

(** The [if]/[elif]/[else] on [FORCE_COST_FORMULATION_METHOD]. *)
Definition select_cost_formulation (p : problem_parameters)
  : outcome cost_formulation :=
  if String.eqb (FORCE_COST_FORMULATION_METHOD p) "cost" then
    match nth_error C 0 with
    | Some C_0 =>
        Return {| constraint_multipliers := [];
                  Q := J_u;
                  L_constraint := Some C_0 |}
    | None => Raise IndexError
    end
  else if String.eqb (FORCE_COST_FORMULATION_METHOD p) "constraint" then
    Return {| constraint_multipliers := new_constraint_multipliers;
              Q := add_summed J_u J_c;
              L_constraint := None |}
  else Raise (ValueError "Parameter `FORCE_COST_FORMULATION_METHOD ").

(** ** Inverse problem and its solution: the uses of the solver

    The inverse solver is an external collaborator.  What the script
    does with it is modelled as the list of its uses, in program order:
    constructor calls, method calls and attribute reads, each with the
    arguments the script passes. *)

(** A value of the settings dictionary [parameters_inverse_solver]. *)
Inductive setting : Type :=
| setting_str (s : string)
| setting_int (n : Z)
| setting_float (x : float)
| setting_bool (b : bool)
| setting_None.

Definition parameters_inverse_solver : list (string * setting) :=
  [ ("solver_method", setting_str "newton");
    ("sensitivity_method", setting_str "adjoint");
    ("maximum_iterations", setting_int 25);
    ("maximum_divergences", setting_int 5);
    ("absolute_tolerance", setting_float 1e-6);
    ("relative_tolerance", setting_float 1e-6);
    ("maximum_relative_change", setting_None);
    ("error_on_nonconvergence", setting_bool false);
    ("is_symmetric_form_dFdu", setting_bool true) ]%string.

(** [material_parameters], a dict in insertion order. *)
Definition material_parameters : list (string * expr) :=
  [ ("E", E); ("nu", nu) ]%string.

(** The values passed to the solver. *)
Inductive argument : Type :=
| arg_cost (q : summed)
| arg_constraint (l : option Form)
| arg_form (f : Form)
| arg_expr (e : expr)
| arg_bcs (l : list DirichletBC)
| arg_model_parameters
    (material : list (string * expr)) (multipliers : list expr)
| arg_times (ts : list Z)
| arg_time (t : Z)
| arg_setter (f : Z -> stmt unit)
| arg_measure (m : Measure)
| arg_subdims (l : list Z)
| arg_object (name : string)
| arg_settings (l : list (string * setting))
| arg_keyword (name : string) (b : bool).

Inductive api_use : Type :=
| construct (class : string) (args : list argument)
| call (object method : string) (args : list argument)
| attribute (object name : string).

(** The arguments of [invsolve.InverseSolverBasic(...)], positionally. *)
Definition InverseSolverBasic_arguments
    (p : problem_parameters) (cf : cost_formulation) : list argument :=
  [ arg_cost (Q cf);
    arg_constraint (L_constraint cf);
    arg_form F_equilibrium;
    arg_expr u;
    arg_bcs bcs;
    arg_model_parameters material_parameters (constraint_multipliers cf);
    arg_times (observation_times p);
    arg_setter (measurement_setter p) ].

(** The uses of the solver in the part of the script that runs on
    import as well (lines 268 to 322). *)
Definition solver_uses_at_import
    (p : problem_parameters) (cf : cost_formulation) : list api_use :=
  [ construct "InverseSolverBasic" (InverseSolverBasic_arguments p cf);
    construct "InverseSolver"
      [ arg_object "inverse_solver_basic";
        arg_expr u_obs; arg_expr u_msr; arg_measure ds_msr_u;
        arg_expr T_obs; arg_expr T_msr; arg_measure ds_msr_T ];
    call "inverse_solver" "set_parameters_inverse_solver"
      [ arg_settings parameters_inverse_solver ];
    call "inverse_solver" "fit_model_foreach_time" [];
    call "inverse_solver" "fit_model_forall_times" [];
    call "inverse_solver" "assess_model_cost"
      [ arg_keyword "compute_gradients" true ];
    call "inverse_solver" "assess_misfit_displacements"
      [ arg_times (observation_times p); arg_subdims using_subdims_u_msr ];
    call "inverse_solver" "assess_misfit_reaction_forces"
      [ arg_times (observation_times p); arg_subdims using_subdims_T_msr ];
    call "inverse_solver" "observe_f_obs" [ arg_times (observation_times p) ];
    call "inverse_solver" "observe_f_msr" [ arg_times (observation_times p) ];
    call "inverse_solver" "view_cumsum_D2JDm2" [] ]%string.

(** The uses of the solver under [if __name__ == '__main__':], in the
    branch that saves results; [solver_times] is what the solver's
    attribute [observation_times] holds when the loop reads it. *)
Definition solver_uses_in_main
    (p : problem_parameters) (solver_times : list Z) : list api_use :=
  if (PLOT_RESULTS p || SAVE_RESULTS p)%bool then
    if SAVE_RESULTS p then
      (attribute "inverse_solver" "observation_times"
       :: map (fun t => call "inverse_solver" "observe_u"
                          [ arg_time t; arg_keyword "copy" false ])
              solver_times)%string
    else []
  else [].

(** All uses of the solver by a run of the script: none when the cost
    formulation raises, since the script stops there. *)
Definition solver_uses
    (p : problem_parameters) (run_as_main : bool) (solver_times : list Z)
  : list api_use :=
  match select_cost_formulation p with
  | Raise _ => []
  | Return cf =>
      solver_uses_at_import p cf
      ++ (if run_as_main then solver_uses_in_main p solver_times else [])
  end.

(** The solver interface as the specification lists it. *)
Definition listed_methods : list string :=
  [ "fit_model_foreach_time"; "fit_model_forall_times";
    "assess_model_cost"; "assess_misfit_displacements";
    "assess_misfit_reaction_forces"; "observe_f_obs"; "observe_f_msr";
    "view_cumsum_D2JDm2" ]%string.

(** The members of the solver the script uses besides. *)
Definition further_methods : list string :=
  [ "set_parameters_inverse_solver"; "observe_u" ]%string.

Definition further_attributes : list string :=
  [ "observation_times" ]%string.

(** A use that stays within an interface made of the two constructors
    (the first with its eight arguments in the listed order), the given
    methods and the given attributes. *)
Inductive within_interface (p : problem_parameters)
    (methods attributes : list string) : api_use -> Prop :=
| within_InverseSolverBasic (cf : cost_formulation) :
    select_cost_formulation p = Return cf ->
    within_interface p methods attributes
      (construct "InverseSolverBasic" (InverseSolverBasic_arguments p cf))
| within_InverseSolver (args : list argument) :
    within_interface p methods attributes (construct "InverseSolver" args)
| within_method (object method : string) (args : list argument) :
    In method methods ->
    within_interface p methods attributes (call object method args)
| within_attribute (object name : string) :
    In name attributes ->
    within_interface p methods attributes (attribute object name).

(** ** The values of expressions and forms

    The meaning of the symbolic objects, as the framework defines it:
    at a point of the mesh an expression has a real value (a scalar, a
    vector of the three-dimensional space or a 3x3 matrix), and a form
    has the value of the sum of its integrals.  The framework's
    differentiation with respect to a variable and its integration over
    a measure are taken as given operators. *)

Local Open Scope R_scope.

Record vec : Type := { v_0 : R; v_1 : R; v_2 : R }.
Record mat : Type := { row_0 : vec; row_1 : vec; row_2 : vec }.

Inductive value : Type :=
| Scalar (r : R)
| Vector (v : vec)
| Matrix (m : mat).

Definition column (m : mat) (pick : vec -> R) : vec :=
  {| v_0 := pick (row_0 m); v_1 := pick (row_1 m); v_2 := pick (row_2 m) |}.

Definition transpose (m : mat) : mat :=
  {| row_0 := column m v_0; row_1 := column m v_1; row_2 := column m v_2 |}.

Definition inner (a b : vec) : R :=
  v_0 a * v_0 b + v_1 a * v_1 b + v_2 a * v_2 b.

Definition mat_vec (m : mat) (v : vec) : vec :=
  {| v_0 := inner (row_0 m) v; v_1 := inner (row_1 m) v;
     v_2 := inner (row_2 m) v |}.

Definition vec_mat (v : vec) (m : mat) : vec := mat_vec (transpose m) v.

Definition mat_mat (a b : mat) : mat :=
  {| row_0 := vec_mat (row_0 a) b; row_1 := vec_mat (row_1 a) b;
     row_2 := vec_mat (row_2 a) b |}.

Definition vec_map2 (f : R -> R -> R) (a b : vec) : vec :=
  {| v_0 := f (v_0 a) (v_0 b); v_1 := f (v_1 a) (v_1 b);
     v_2 := f (v_2 a) (v_2 b) |}.

Definition mat_map2 (f : R -> R -> R) (a b : mat) : mat :=
  {| row_0 := vec_map2 f (row_0 a) (row_0 b);
     row_1 := vec_map2 f (row_1 a) (row_1 b);
     row_2 := vec_map2 f (row_2 a) (row_2 b) |}.

Definition vec_scale (c : R) (a : vec) : vec :=
  {| v_0 := c * v_0 a; v_1 := c * v_1 a; v_2 := c * v_2 a |}.

Definition mat_scale (c : R) (a : mat) : mat :=
  {| row_0 := vec_scale c (row_0 a); row_1 := vec_scale c (row_1 a);
     row_2 := vec_scale c (row_2 a) |}.

Definition identity : mat :=
  {| row_0 := {| v_0 := 1; v_1 := 0; v_2 := 0 |};
     row_1 := {| v_0 := 0; v_1 := 1; v_2 := 0 |};
     row_2 := {| v_0 := 0; v_1 := 0; v_2 := 1 |} |}.

Definition trace (m : mat) : R :=
  v_0 (row_0 m) + v_1 (row_1 m) + v_2 (row_2 m).

Definition determinant (m : mat) : R :=
  let a := row_0 m in
  let b := row_1 m in
  let c := row_2 m in
  v_0 a * (v_1 b * v_2 c - v_2 b * v_1 c)
  - v_1 a * (v_0 b * v_2 c - v_2 b * v_0 c)
  + v_2 a * (v_0 b * v_1 c - v_1 b * v_0 c).

(** Component [i] of a vector; the framework rejects an index outside
    0, 1, 2. *)
Definition component (v : vec) (i : Z) : option R :=
  match i with
  | 0%Z => Some (v_0 v)
  | 1%Z => Some (v_1 v)
  | 2%Z => Some (v_2 v)
  | _ => None
  end.

(** The real number a finite float stands for. *)
Definition float_to_R (x : float) : R :=
  match Prim2SF x with
  | S754_finite sign m e =>
      let magnitude := IZR (Z.pos m) * powerRZ 2 e in
      if sign then - magnitude else magnitude
  | _ => 0
  end.

(** The values of the coefficients at a point of the mesh. *)
Record fields : Type := {
  at_u : vec;
  at_grad_u : mat;
  at_N : vec;
  at_u_msr : vec;
  at_T_msr : vec;
  at_uxD_msr : R;
  at_E : R;
  at_nu : R;
  at_multiplier : nat -> R
}.

Definition coefficient_value (s : fields) (c : coefficient) : value :=
  match c with
  | coef_u => Vector (at_u s)
  | coef_u_msr => Vector (at_u_msr s)
  | coef_T_msr => Vector (at_T_msr s)
  | coef_uxD_msr => Scalar (at_uxD_msr s)
  | coef_E => Scalar (at_E s)
  | coef_nu => Scalar (at_nu s)
  | coef_zero => Scalar 0
  | coef_zeros => Vector {| v_0 := 0; v_1 := 0; v_2 := 0 |}
  | coef_multiplier k => Scalar (at_multiplier s k)
  end.

(** The values given to variables while a derivative is taken. *)
Definition bindings : Type := nat -> option mat.

Definition no_bindings : bindings := fun _ => None.

Definition bind_variable (label : nat) (X : mat) (rho : bindings)
  : bindings :=
  fun l => if Nat.eqb l label then Some X else rho l.

Definition scalar_of (v : option value) : R :=
  match v with
  | Some (Scalar r) => r
  | _ => 0
  end.

Section Evaluation.

(** The framework's differentiation of a scalar function of a matrix:
    [gradient f X] is the matrix of the derivatives of [f] at [X]. *)
Variable gradient : (mat -> R) -> mat -> mat.

Variable s : fields.

(** The value of an expression; [None] for an operand combination the
    framework rejects. *)
Fixpoint eval (e : expr) (rho : bindings) {struct e} : option value :=
  match e with
  | FloatValue x => Some (Scalar (float_to_R x))
  | IntValue n => Some (Scalar (IZR n))
  | Coefficient c => Some (coefficient_value s c)
  | Identity dim =>
      if Nat.eqb dim 3 then Some (Matrix identity) else None
  | FacetNormal => Some (Vector (at_N s))
  | Grad a =>
      match a with
      | Coefficient coef_u => Some (Matrix (at_grad_u s))
      | _ => None
      end
  | Var label a =>
      match rho label with
      | Some X => Some (Matrix X)
      | None => eval a rho
      end
  | Transposed a =>
      match eval a rho with
      | Some (Matrix m) => Some (Matrix (transpose m))
      | _ => None
      end
  | Det a =>
      match eval a rho with
      | Some (Matrix m) => Some (Scalar (determinant m))
      | _ => None
      end
  | Tr a =>
      match eval a rho with
      | Some (Matrix m) => Some (Scalar (trace m))
      | _ => None
      end
  | Ln a =>
      match eval a rho with
      | Some (Scalar r) => Some (Scalar (ln r))
      | _ => None
      end
  | Add a b =>
      match eval a rho, eval b rho with
      | Some (Scalar x), Some (Scalar y) => Some (Scalar (x + y))
      | Some (Vector x), Some (Vector y) =>
          Some (Vector (vec_map2 Rplus x y))
      | Some (Matrix x), Some (Matrix y) =>
          Some (Matrix (mat_map2 Rplus x y))
      | _, _ => None
      end
  | Sub a b =>
      match eval a rho, eval b rho with
      | Some (Scalar x), Some (Scalar y) => Some (Scalar (x - y))
      | Some (Vector x), Some (Vector y) =>
          Some (Vector (vec_map2 Rminus x y))
      | Some (Matrix x), Some (Matrix y) =>
          Some (Matrix (mat_map2 Rminus x y))
      | _, _ => None
      end
  | Mul a b =>
      match eval a rho, eval b rho with
      | Some (Scalar x), Some (Scalar y) => Some (Scalar (x * y))
      | Some (Scalar x), Some (Vector y) => Some (Vector (vec_scale x y))
      | Some (Scalar x), Some (Matrix y) => Some (Matrix (mat_scale x y))
      | Some (Vector x), Some (Scalar y) => Some (Vector (vec_scale y x))
      | Some (Matrix x), Some (Scalar y) => Some (Matrix (mat_scale y x))
      | Some (Matrix x), Some (Vector y) => Some (Vector (mat_vec x y))
      | Some (Matrix x), Some (Matrix y) => Some (Matrix (mat_mat x y))
      | _, _ => None
      end
  | Div a b =>
      match eval a rho, eval b rho with
      | Some (Scalar x), Some (Scalar y) => Some (Scalar (x / y))
      | Some (Vector x), Some (Scalar y) => Some (Vector (vec_scale (/ y) x))
      | Some (Matrix x), Some (Scalar y) => Some (Matrix (mat_scale (/ y) x))
      | _, _ => None
      end
  | Pow a b =>
      match eval a rho, b with
      | Some (Scalar x), IntValue n => Some (Scalar (powerRZ x n))
      | _, _ => None
      end
  | Dot a b =>
      match eval a rho, eval b rho with
      | Some (Vector x), Some (Vector y) => Some (Scalar (inner x y))
      | Some (Matrix x), Some (Vector y) => Some (Vector (mat_vec x y))
      | Some (Vector x), Some (Matrix y) => Some (Vector (vec_mat x y))
      | Some (Matrix x), Some (Matrix y) => Some (Matrix (mat_mat x y))
      | _, _ => None
      end
  | Indexed a i =>
      match eval a rho with
      | Some (Vector v) =>
          match component v i with
          | Some r => Some (Scalar r)
          | None => None
          end
      | _ => None
      end
  | VariableDerivative f v =>
      match v with
      | Var label a =>
          match eval a rho with
          | Some (Matrix X0) =>
              Some (Matrix
                      (gradient
                         (fun X =>
                            scalar_of (eval f (bind_variable label X rho)))
                         X0))
          | _ => None
          end
      | _ => None
      end
  | CoefficientDerivative _ _ => None
  end.

End Evaluation.

Section FormValues.

Variable gradient : (mat -> R) -> mat -> mat.

(** The points of the mesh, the coefficient values at each point, and
    the framework's integration of a function over a measure. *)
Variable point : Type.
Variable field : point -> fields.
Variable integral_over : Measure -> (point -> R) -> R.

Definition integrand_at (e : expr) (x : point) : R :=
  scalar_of (eval gradient (field x) e no_bindings).

Definition form_value (f : Form) : R :=
  fold_right Rplus 0
    (map (fun i => integral_over (measure i) (integrand_at (integrand i)))
         f).

Definition summed_value (q : summed) : R :=
  match q with
  | zero_int => 0
  | a_form f => form_value f
  end.

End FormValues.

(** *** The statements of the specification, in its own words *)

(** The Lame parameters from Young's modulus and Poisson's ratio. *)
Definition lame_mu (young poisson : R) : R := young / (2 + 2 * poisson).

Definition lame_lambda (young poisson : R) : R :=
  young * poisson / ((1 + poisson) * (1 - 2 * poisson)).

(** The Neo-Hookean strain-energy density of a deformation gradient
    [X] in three dimensions:
    [(mu/2)*(I1 - 3 - 2*ln(J)) + (lm/2)*ln(J)^2] with
    [I1 = tr(X^T X)] and [J = det(X)]. *)
Definition neo_hookean (young poisson : R) (X : mat) : R :=
  let i1 := trace (mat_mat (transpose X) X) in
  let j := determinant X in
  lame_mu young poisson / 2 * (i1 - 3 - 2 * ln j)
  + lame_lambda young poisson / 2 * (ln j) ^ 2.

(** The deformation gradient [I + grad(u)] at a point. *)
Definition deformation_gradient (s : fields) : mat :=
  mat_map2 Rplus identity (at_grad_u s).

Definition component_of (v : vec) (i : Z) : R :=
  match component v i with
  | Some r => r
  | None => 0
  end.

(** The squared misfit of displacement component [i] at a point. *)
Definition displacement_misfit (s : fields) (i : Z) : R :=
  (component_of (at_u s) i - component_of (at_u_msr s) i) ^ 2.

(** The traction a first Piola-Kirchhoff stress [P] exerts on a facet
    of normal [n]: the contraction [P . n]. *)
Definition traction (P : mat) (n : vec) : vec := mat_vec P n.

(** The misfit of traction component [i] at a point, for the observed
    traction [T]. *)
Definition traction_misfit (T : vec) (s : fields) (i : Z) : R :=
  component_of T i - component_of (at_T_msr s) i.

(** The part of the boundary a measure integrates over: the subdomain
    conditions that gave the facets the measure's id. *)
Definition measure_subdomain (m : Measure) : list condition :=
  match subdomain_id m, subdomain_data m with
  | Some id, Some marks => marked_with marks id
  | _, _ => []
  end.

(** The displacement gradient of the undeformed state. *)
Definition zero_mat : mat :=
  {| row_0 := {| v_0 := 0; v_1 := 0; v_2 := 0 |};
     row_1 := {| v_0 := 0; v_1 := 0; v_2 := 0 |};
     row_2 := {| v_0 := 0; v_1 := 0; v_2 := 0 |} |}.

Local Close Scope R_scope.

(** *** Which vertices the subdomains select *)

(** The script's five subdomains select, among the vertices of the
    mesh, those of the face [x = 0], of the face [x = W], of the face
    [y = L], the vertex [(0, 0, 0)] and the vertex [(0, L, 0)]. *)
Definition selects_the_named_vertices
    (ix iy iz : nat) (v : Point) : bool :=
  Bool.eqb (inside boundary_fix v true) (Nat.eqb ix 0)
  && Bool.eqb (inside boundary_msr v true) (Nat.eqb ix (Z.to_nat nx))
  && Bool.eqb (inside boundary_dic v true) (Nat.eqb iy (Z.to_nat ny))
  && Bool.eqb (inside fixed_vertex_000 v true)
              (Nat.eqb ix 0 && Nat.eqb iy 0 && Nat.eqb iz 0)
  && Bool.eqb (inside fixed_vertex_010 v true)
              (Nat.eqb ix 0 && Nat.eqb iy (Z.to_nat ny) && Nat.eqb iz 0)
  && Bool.eqb (PrimFloat.eqb (x_0 v) 0) (Nat.eqb ix 0)
  && Bool.eqb (PrimFloat.eqb (x_0 v) W) (Nat.eqb ix (Z.to_nat nx))
  && Bool.eqb (PrimFloat.eqb (x_1 v) 0) (Nat.eqb iy 0)
  && Bool.eqb (PrimFloat.eqb (x_1 v) L) (Nat.eqb iy (Z.to_nat ny))
  && Bool.eqb (PrimFloat.eqb (x_2 v) 0) (Nat.eqb iz 0).

(** *** Checks over a range of observation counts *)

(** The parameters with [n] observations in the given displacement
    configuration. *)
Definition with_observations (n : nat) (small : bool) : problem_parameters :=
  {| FORCE_COST_FORMULATION_METHOD := FORCE_COST_FORMULATION_METHOD
                                        source_parameters;
     NUM_OBSERVATIONS := n;
     SMALL_DISPLACEMENTS := small;
     PLOT_RESULTS := PLOT_RESULTS source_parameters;
     SAVE_RESULTS := SAVE_RESULTS source_parameters |}.

(** At index [k] of the two measurement arrays: the fabricated traction
    equals [E_target] times the strain, and the displacement equals [W]
    times the strain, as Python's [==] compares floats. *)
Definition consistent_at (Tx uxD : list float) (k : nat) : bool :=
  let Tx_k := nth k Tx 0 in
  let uxD_k := nth k uxD 0 in
  PrimFloat.eqb Tx_k (E_target * (uxD_k / W))
  && PrimFloat.eqb uxD_k (W * (uxD_k / W)).

(** At indices [i <= j]: both sequences do not decrease. *)
Definition ordered_at (Tx uxD : list float) (i j : nat) : bool :=
  PrimFloat.leb (nth i Tx 0) (nth j Tx 0)
  && PrimFloat.leb (nth i uxD 0) (nth j uxD 0).

(** The two checks at every index, for every observation count up to
    [bound] and both displacement configurations. *)
Definition checked_up_to (bound : nat) : bool :=
  forallb
    (fun n =>
       forallb
         (fun small =>
            let Tx := measurements_Tx (with_observations n small) in
            let uxD := measurements_uxD (with_observations n small) in
            forallb
              (fun j =>
                 consistent_at Tx uxD j
                 && forallb (fun i => ordered_at Tx uxD i j) (seq 0 (j + 1)))
              (seq 0 (n + 1)))
         [true; false])
    (seq 0 (bound + 1)).

(** ** Vocabulary of the properties *)

(** [n + 1] samples evenly spaced from [start] to [stop], in binary64
    arithmetic: sample [k] is [start] plus [k] steps of
    [(stop - start) / n]; sample [0] is then [start], and sample [n] is
    required to be [stop]. *)
Definition evenly_spaced
    (start stop : float) (n : nat) (xs : list float) : Prop :=
  length xs = (n + 1)%nat /\
  nth 0 xs 0 = start /\
  nth n xs 0 = stop /\
  forall k, (k <= n)%nat ->
    nth k xs 0 = start + float_of_nat k * ((stop - start) / float_of_nat n).

(** ** Plotting: the names of the model parameters *)

(** [str(i)] for a Python int, as an f-string formats it. *)
Definition str_int (i : Z) : string :=
  NilZero.string_of_int (Z.to_int i).

(** The names that label the fitted parameters in the plots: the keys
    of [material_parameters], then one name per constraint multiplier,
    numbered from 1 when there are several. *)
Definition model_parameter_names (multipliers : list expr) : list string :=
  let names := map fst material_parameters in
  if (1 <? length multipliers)%nat then
    names ++ map (fun i => ("constraint_multiplier_" ++ str_int i)%string)
                 (range 1 (Z.of_nat (length multipliers) + 1))
  else if (length multipliers =? 1)%nat then
    names ++ ["constraint_multiplier"%string]
  else names.

(** ** The main program: the force-displacement curve *)

(** A list comprehension whose element expression may raise: the list
    of the results, or the first exception. *)
Fixpoint comprehension {A B} (f : A -> outcome B) (l : list A)
  : outcome (list B) :=
  match l with
  | [] => Return []
  | a :: rest =>
      match f a with
      | Raise e => Raise e
      | Return b =>
          match comprehension f rest with
          | Raise e => Raise e
          | Return bs => Return (b :: bs)
          end
      end
  end.

(** [[measurements_uxD[t] for t in observation_times]]. *)
Definition reaction_displacement_magnitude_i (p : problem_parameters)
  : outcome (list float) :=
  comprehension (getitem (measurements_uxD p)) (observation_times p).

(** ** The measurement expressions at a point

    The three [Expression] objects are evaluated by compiled C++ code
    in double precision: [u_msr] has the components [ex*x[0]],
    [-nu*ex*x[1]] and [-nu*ex*x[2]], [T_msr] the components [value_x],
    [0.0] and [0.0], and [uxD_msr] the value [value]. *)

Definition u_msr_at (s : expression_parameters) (x : Point)
  : float * float * float :=
  (u_msr_ex s * x_0 x,
   (- u_msr_nu s) * u_msr_ex s * x_1 x,
   (- u_msr_nu s) * u_msr_ex s * x_2 x).

Definition T_msr_at (s : expression_parameters) (x : Point)
  : float * float * float :=
  (T_msr_value_x s, 0.0, 0.0).

Definition uxD_msr_at (s : expression_parameters) (x : Point) : float :=
  uxD_msr_value s.

(** Whether the fabricated displacement field with strain [ex] (and
    Poisson ratio [nu_target]) takes the displacement [uxD] on the
    plane [x = W] and vanishes on the planes [x = 0], [y = 0] and
    [z = 0], as Python's [==] compares floats. *)
Definition field_meets_conditions (ex uxD : float) : bool :=
  PrimFloat.eqb (ex * W) uxD
  && PrimFloat.eqb (ex * 0) 0
  && PrimFloat.eqb ((- nu_target) * ex * 0) 0.

(** That check with the strain [measurement_setter] sets at each index,
    for every observation count up to [bound] and both displacement
    configurations. *)
Definition fields_checked_up_to (bound : nat) : bool :=
  forallb
    (fun n =>
       forallb
         (fun small =>
            let uxD := measurements_uxD (with_observations n small) in
            forallb
              (fun k => field_meets_conditions (nth k uxD 0 / W) (nth k uxD 0))
              (seq 0 (n + 1)))
         [true; false])
    (seq 0 (bound + 1)).

(** ** The boundary facets of the box mesh

    A boundary facet of the box mesh is a triangle whose vertices are
    three of the four corners of one cell of the vertex grid of a face
    of the box.  The four triples of corners are all considered, so
    that nothing depends on the diagonal along which the framework
    splits the cell. *)

Inductive box_face : Type :=
| face_x_min
| face_x_max
| face_y_min
| face_y_max
| face_z_min
| face_z_max.

Definition all_faces : list box_face :=
  [face_x_min; face_x_max; face_y_min; face_y_max; face_z_min; face_z_max].

(** The vertex of a face at position [(a, b)] of the face's own grid. *)
Definition face_vertex (m : BoxMesh) (f : box_face) (a b : nat) : Point :=
  match f with
  | face_x_min => vertex m 0 a b
  | face_x_max => vertex m (Z.to_nat (cells_x m)) a b
  | face_y_min => vertex m a 0 b
  | face_y_max => vertex m a (Z.to_nat (cells_y m)) b
  | face_z_min => vertex m a b 0
  | face_z_max => vertex m a b (Z.to_nat (cells_z m))
  end.

(** The number of cells of a face's grid in its two directions. *)
Definition face_cells (m : BoxMesh) (f : box_face) : nat * nat :=
  match f with
  | face_x_min | face_x_max =>
      (Z.to_nat (cells_y m), Z.to_nat (cells_z m))
  | face_y_min | face_y_max =>
      (Z.to_nat (cells_x m), Z.to_nat (cells_z m))
  | face_z_min | face_z_max =>
      (Z.to_nat (cells_x m), Z.to_nat (cells_y m))
  end.

(** The four triangles on the corners of the cell [(a, b)] of a face. *)
Definition cell_triangles (m : BoxMesh) (f : box_face) (a b : nat)
  : list (Point * Point * Point) :=
  let c00 := face_vertex m f a b in
  let c10 := face_vertex m f (S a) b in
  let c01 := face_vertex m f a (S b) in
  let c11 := face_vertex m f (S a) (S b) in
  [ (c00, c10, c01); (c10, c01, c11); (c00, c10, c11); (c00, c01, c11) ].

Definition face_triangles (m : BoxMesh) (f : box_face)
  : list (Point * Point * Point) :=
  flat_map
    (fun a =>
       flat_map (fun b => cell_triangles m f a b)
                (seq 0 (snd (face_cells m f))))
    (seq 0 (fst (face_cells m f))).

(** The midpoint of a triangle as the framework computes it: the
    coordinates of the vertices are added up and divided by their
    number. *)
Definition midpoint (t : Point * Point * Point) : Point :=
  let '(a, b, c) := t in
  {| x_0 := (0 + x_0 a + x_0 b + x_0 c) / 3;
     x_1 := (0 + x_1 a + x_1 b + x_1 c) / 3;
     x_2 := (0 + x_2 a + x_2 b + x_2 c) / 3 |}.

(** The points [mark] tests for a facet: its vertices and its
    midpoint. *)
Definition test_points (t : Point * Point * Point) : list Point :=
  let '(a, b, c) := t in [a; b; c; midpoint t].

(** The marker each face of the box is meant to carry. *)
Definition face_marker (f : box_face) : nat :=
  match f with
  | face_x_min => id_subdomain_fix
  | face_x_max => id_subdomain_msr
  | face_y_max => id_subdomains_dic
  | face_y_min | face_z_min | face_z_max => 0%nat
  end.

Definition faces_marked_as_meant (m : BoxMesh) : bool :=
  forallb
    (fun f =>
       forallb
         (fun t =>
            Nat.eqb (marker_of boundary_markers (test_points t) true)
                    (face_marker f))
         (face_triangles m f))
    all_faces.

(** Whether a facet lies in the plane [x = c]: its vertices and its
    midpoint have that coordinate, as Python's [==] compares floats. *)
Definition lies_in_plane_x (c : float) (t : Point * Point * Point) : bool :=
  forallb (fun x => PrimFloat.eqb (x_0 x) c) (test_points t).

Definition is_face_x_min (f : box_face) : bool :=
  match f with
  | face_x_min => true
  | _ => false
  end.

Definition is_face_x_max (f : box_face) : bool :=
  match f with
  | face_x_max => true
  | _ => false
  end.

(** The boundary facets in the plane [x = 0] are those of the first
    face of the box and the ones in the plane [x = W] those of the
    second. *)
Definition faces_lie_as_named (m : BoxMesh) : bool :=
  forallb
    (fun f =>
       forallb
         (fun t =>
            Bool.eqb (lies_in_plane_x 0 t) (is_face_x_min f)
            && Bool.eqb (lies_in_plane_x W t) (is_face_x_max f))
         (face_triangles m f))
    all_faces.

(** ** Where the Dirichlet boundary conditions hold *)

(** A condition given by a marker function and an id holds on the
    facets that carry the id once every [mark] call has run; a
    pointwise condition holds on no facet. *)
Definition applies_on_facet (bc : DirichletBC)
    (t : Point * Point * Point) (on_bdry : bool) : bool :=
  match bc_where bc with
  | marked_facets markers id =>
      Nat.eqb (marker_of markers (test_points t) on_bdry) id
  | pointwise _ => false
  end.

(** A pointwise condition holds at the points its subdomain selects;
    [on_bdry] is the boundary flag the framework hands to the
    subdomain. *)
Definition applies_at_point (bc : DirichletBC) (x : Point)
    (on_bdry : bool) : bool :=
  match bc_where bc with
  | marked_facets _ _ => false
  | pointwise subdomain => inside subdomain x on_bdry
  end.

(** What a list of boundary conditions prescribes on a facet and at a
    point. *)
Definition prescribed_on_facet (conditions : list DirichletBC)
    (t : Point * Point * Point) (on_bdry : bool) : list (list nat * expr) :=
  map constraint_of
      (filter (fun bc => applies_on_facet bc t on_bdry) conditions).

Definition prescribed_at_point (conditions : list DirichletBC)
    (x : Point) (on_bdry : bool) : list (list nat * expr) :=
  map constraint_of
      (filter (fun bc => applies_at_point bc x on_bdry) conditions).

(** ** The main program: saving the results *)

Definition starts_with_slash (s : string) : bool :=
  match s with
  | String c _ => Ascii.eqb c "/"
  | EmptyString => false
  end.

Fixpoint ends_with_slash (s : string) : bool :=
  match s with
  | EmptyString => false
  | String c EmptyString => Ascii.eqb c "/"
  | String _ rest => ends_with_slash rest
  end.

(** [os.path.join(a, b)] on a POSIX system: a component that starts
    with a slash replaces what precedes it, and a slash is inserted
    unless the path so far is empty or ends with one. *)
Definition path_join (a b : string) : string :=
  if starts_with_slash b then b
  else if (String.eqb a "" || ends_with_slash a)%bool then (a ++ b)%string
  else (a ++ "/" ++ b)%string.

(** The results directory, from the directory of the script. *)
Definition RESULTS_DIR (PROBLEM_DIR : string) : string :=
  path_join PROBLEM_DIR "results".

(** What the main program does to figures and files. *)
Inductive effect : Type :=
| close_all_figures
| plot_figure (function figname : string)
| makedirs (path : string)
| savefig (handle : nat) (path : string)
| open_output_file (path : string)
| write_displacement (t : Z).

(** The calls of [plot_everything] to the plotting module, in order:
    the function called and the [figname] it is given. *)
Definition plotting_calls : list (string * string) :=
  [ ("plot_model_parameters_foreach",
     "Fitted Model Parameters for Each Observation Time");
    ("plot_model_parameters_forall",
     "Fitted Model Parameters for all Observation Times");
    ("plot_model_cost", "Model Cost");
    ("plot_cost_gradients", "Model Cost Derivatives");
    ("plot_observation_misfit", "Reaction Force Misfit Error");
    ("plot_observation_misfit", "Displacement Field Misfit Error");
    ("plot_reaction_force_vs_displacement",
     "Reaction Force-Displacement Curve") ]%string.

(** The effects of [plot_everything()]: it closes every open figure,
    then makes the figures one after the other. *)
Definition plot_everything : list effect :=
  close_all_figures
  :: map (fun call => plot_figure (fst call) (snd call)) plotting_calls.

(** The loop over [zip(fig_handles, fig_names)]: each figure is saved
    as a PNG and as a PDF file. *)
Definition save_figures (dir : string)
    (fig_handles : list nat) (fig_names : list string) : list effect :=
  flat_map
    (fun hn =>
       [ savefig (fst hn) (path_join dir (snd hn) ++ ".png")%string;
         savefig (fst hn) (path_join dir (snd hn) ++ ".pdf")%string ])
    (zip fig_handles fig_names).

(** The effects of the block under [if PLOT_RESULTS or SAVE_RESULTS:].
    [results_dir_exists] is what [os.path.isdir(RESULTS_DIR)] returns,
    [fig_handle_and_name_pairs] what [plot_everything()] returns (the
    pairs the plotting module hands back, one for each of its calls),
    and [solver_times] what the solver's [observation_times] holds. *)
Definition main_effects (p : problem_parameters) (PROBLEM_DIR : string)
    (results_dir_exists : bool)
    (fig_handle_and_name_pairs : list (nat * string))
    (solver_times : list Z) : list effect :=
  if (PLOT_RESULTS p || SAVE_RESULTS p)%bool then
    let fig_handles := map fst fig_handle_and_name_pairs in
    let fig_names := map snd fig_handle_and_name_pairs in
    plot_everything
    ++ (if SAVE_RESULTS p then
          (if negb results_dir_exists
           then [makedirs (RESULTS_DIR PROBLEM_DIR)] else [])
          ++ save_figures (RESULTS_DIR PROBLEM_DIR) fig_handles fig_names
          ++ (if negb (PLOT_RESULTS p) then [close_all_figures] else [])
          ++ [open_output_file
                (path_join (path_join (RESULTS_DIR PROBLEM_DIR) "pvd")
                           "u.pvd")]
          ++ map write_displacement solver_times
        else [])
  else [].

(** The paths of the figure files a list of effects writes. *)
Definition saved_paths (effects : list effect) : list string :=
  flat_map (fun e => match e with
                     | savefig _ path => [path]
                     | _ => []
                     end) effects.

(** An effect that writes to the file system. *)
Definition writes_files (e : effect) : bool :=
  match e with
  | close_all_figures | plot_figure _ _ => false
  | makedirs _ | savefig _ _ | open_output_file _ | write_displacement _ =>
      true
  end.

(** How many times a list of effects closes the figures. *)
Definition closings (effects : list effect) : nat :=
  length (filter (fun e => match e with
                           | close_all_figures => true
                           | _ => false
                           end) effects).

(** ** Sample data for instances of the properties *)

(** The script's parameters with the "constraint" formulation (line 46
    of the script, commented out there). *)
Definition constraint_parameters : problem_parameters :=
  {| FORCE_COST_FORMULATION_METHOD := "constraint";
     NUM_OBSERVATIONS := NUM_OBSERVATIONS source_parameters;
     SMALL_DISPLACEMENTS := SMALL_DISPLACEMENTS source_parameters;
     PLOT_RESULTS := PLOT_RESULTS source_parameters;
     SAVE_RESULTS := SAVE_RESULTS source_parameters |}.

(** Coefficient values at a point of an undeformed bar with unit
    normal along x, the script's initial material parameters and a
    multiplier of 2. *)
Definition sample_fields : fields :=
  {| at_u := {| v_0 := 0; v_1 := 0; v_2 := 0 |}%R;
     at_grad_u := zero_mat;
     at_N := {| v_0 := 1; v_1 := 0; v_2 := 0 |}%R;
     at_u_msr := {| v_0 := 0; v_1 := 0; v_2 := 0 |}%R;
     at_T_msr := {| v_0 := 0; v_1 := 0; v_2 := 0 |}%R;
     at_uxD_msr := 0%R;
     at_E := 1%R;
     at_nu := 0%R;
     at_multiplier := fun _ => 2%R |}.

(** * Properties *)

(** ** numpy primitives *)

Lemma length_set_last (y : list float) (v : float) :
  length (set_last y v) = length y.
Proof.
  induction y as [|x [|x' rest] IH]; simpl in *; auto.
Qed.

Lemma length_arange (num : nat) : length (arange num) = num.
Proof. unfold arange. now rewrite length_map, length_seq. Qed.

(** [linspace] returns exactly [num] samples, whatever the end points. *)
Lemma length_linspace (start stop : float) (num : nat) :
  length (linspace start stop num) = num.
Proof.
  unfold linspace.
  destruct (1 <? num)%nat; [rewrite length_set_last|];
    rewrite length_map;
    destruct (0 <? num - 1)%nat;
    try destruct (PrimFloat.eqb _ _);
    now rewrite length_map, length_arange.
Qed.

(** Inside its bounds, indexing returns the element and does not raise. *)
Lemma getitem_in_bounds (a : list float) (i : Z) :
  (0 <= i < Z.of_nat (length a))%Z ->
  getitem a i = Return (nth (Z.to_nat i) a 0).
Proof.
  intros Hi. unfold getitem.
  destruct (Z.ltb_spec i 0) as [Hneg|_]; [lia|].
  destruct (Z.leb_spec 0 i) as [_|Hneg]; [|lia].
  destruct (Z.ltb_spec i (Z.of_nat (length a))) as [_|Hbig]; [|lia].
  simpl.
  destruct (nth_error a (Z.to_nat i)) as [x|] eqn:Hnth.
  - now rewrite (nth_error_nth a _ 0 Hnth).
  - apply nth_error_None in Hnth. lia.
Qed.

(** Outside [-len, len), indexing raises [IndexError]. *)
Lemma getitem_out_of_bounds (a : list float) (i : Z) :
  (i < - Z.of_nat (length a) \/ Z.of_nat (length a) <= i)%Z ->
  getitem a i = Raise IndexError.
Proof.
  intros Hi. unfold getitem.
  destruct (Z.ltb_spec i 0) as [Hneg|Hpos].
  - destruct (Z.leb_spec 0 (i + Z.of_nat (length a))) as [H0|H0]; [lia|].
    reflexivity.
  - destruct (Z.leb_spec 0 i) as [_|H0]; [|lia].
    destruct (Z.ltb_spec i (Z.of_nat (length a))) as [Hlt|_]; [lia|].
    reflexivity.
Qed.

Lemma length_range (start stop : Z) :
  length (range start stop) = Z.to_nat (stop - start).
Proof. unfold range. now rewrite length_map, length_seq. Qed.

Lemma in_range (start stop t : Z) :
  In t (range start stop) <-> (start <= t < stop)%Z.
Proof.
  unfold range. rewrite in_map_iff. split.
  - intros (k & <- & Hk). apply in_seq in Hk. lia.
  - intros Ht. exists (Z.to_nat (t - start)). split; [lia|].
    apply in_seq. lia.
Qed.

(** ** Measurements *)

Lemma length_measurements_Tx (p : problem_parameters) :
  length (measurements_Tx p) = (NUM_OBSERVATIONS p + 1)%nat.
Proof. apply length_linspace. Qed.

Lemma length_measurements_uxD (p : problem_parameters) :
  length (measurements_uxD p) = (NUM_OBSERVATIONS p + 1)%nat.
Proof. apply length_linspace. Qed.

(** What [measurement_setter] does at a valid index, for any number of
    observations: it completes, it writes the three parameters from the
    two measurement arrays, and it leaves [u_msr.nu] as it was. *)
Lemma measurement_setter_in_bounds
    (p : problem_parameters) (i : Z) (s : expression_parameters) :
  (0 <= i <= Z.of_nat (NUM_OBSERVATIONS p))%Z ->
  measurement_setter p i s =
    (Return tt,
     {| u_msr_ex := nth (Z.to_nat i) (measurements_uxD p) 0 / W;
        u_msr_nu := u_msr_nu s;
        T_msr_value_x := nth (Z.to_nat i) (measurements_Tx p) 0;
        uxD_msr_value := nth (Z.to_nat i) (measurements_uxD p) 0 |}).
Proof.
  intros Hi. unfold measurement_setter, bind, lift.
  rewrite !getitem_in_bounds
    by (rewrite ?length_measurements_Tx, ?length_measurements_uxD; lia).
  reflexivity.
Qed.

(** Past the end of the arrays the setter raises [IndexError] before it
    writes anything. *)
Lemma measurement_setter_out_of_bounds
    (p : problem_parameters) (i : Z) (s : expression_parameters) :
  (Z.of_nat (NUM_OBSERVATIONS p) < i)%Z ->
  measurement_setter p i s = (Raise IndexError, s).
Proof.
  intros Hi. unfold measurement_setter, bind, lift.
  rewrite getitem_out_of_bounds
    by (rewrite length_measurements_Tx; lia).
  reflexivity.
Qed.

(** The case analysis shared by the statements about the script's four
    observations: a natural number at most 4 is one of 0, 1, 2, 3, 4. *)
Ltac upto4 k H :=
  destruct k as [|[|[|[|[|k]]]]]; [ | | | | | exfalso; lia ]; clear H.

Ltac source_observations p HN :=
  destruct p as [method n_obs small plot save];
  cbn [NUM_OBSERVATIONS] in *; subst n_obs; destruct small.

(** C8: after [measurement_setter(i)], for every index [i] of the
    script's [NUM_OBSERVATIONS = 4] and in both displacement
    configurations, the values set satisfy
    [T_msr.value_x = E_target * u_msr.ex] and
    [uxD_msr.value = W * u_msr.ex] exactly, as binary64 numbers. *)
Theorem measurement_setter_consistent_with_target_law
    (p : problem_parameters) (i : Z) (s : expression_parameters) :
  NUM_OBSERVATIONS p = 4%nat ->
  (0 <= i <= 4)%Z ->
  let s' := snd (measurement_setter p i s) in
  fst (measurement_setter p i s) = Return tt /\
  T_msr_value_x s' = E_target * u_msr_ex s' /\
  uxD_msr_value s' = W * u_msr_ex s'.
Proof.
  intros HN Hi.
  rewrite measurement_setter_in_bounds by lia.
  cbn [fst snd T_msr_value_x u_msr_ex uxD_msr_value].
  split; [reflexivity|].
  assert (Hk : (Z.to_nat i <= 4)%nat) by lia.
  generalize dependent (Z.to_nat i). intros k Hk. clear Hi i.
  source_observations p HN; upto4 k Hk; vm_compute; split; reflexivity.
Qed.

Lemma measurement_setter_consistent_with_target_law_witness :
  let p := source_parameters in
  let s' := snd (measurement_setter p 3 initial_expression_parameters) in
  fst (measurement_setter p 3 initial_expression_parameters) = Return tt /\
  T_msr_value_x s' = E_target * u_msr_ex s' /\
  uxD_msr_value s' = W * u_msr_ex s'.
Proof.
  apply (measurement_setter_consistent_with_target_law
           source_parameters 3 initial_expression_parameters).
  - reflexivity.
  - lia.
Defined.

(** C3: with the script's [NUM_OBSERVATIONS = 4], in both displacement
    configurations, [measurements_Tx] and [measurements_uxD] are each
    [NUM_OBSERVATIONS + 1] evenly spaced values from 0 to [Tx_max] and
    from 0 to [uxD_max], where [Tx_max = E_target * (uxD_max / W)]; and
    for every index [0 <= i <= NUM_OBSERVATIONS], [measurement_setter(i)]
    completes, sets [T_msr.value_x] to [measurements_Tx[i]], [u_msr.ex]
    to [measurements_uxD[i] / W] and [uxD_msr.value] to
    [measurements_uxD[i]], and leaves the remaining parameter
    ([u_msr.nu]) unchanged. *)
Theorem measurements_evenly_spaced_and_set
    (p : problem_parameters) (i : Z) (s : expression_parameters) :
  NUM_OBSERVATIONS p = 4%nat ->
  (0 <= i <= Z.of_nat (NUM_OBSERVATIONS p))%Z ->
  evenly_spaced 0 (Tx_max p) (NUM_OBSERVATIONS p) (measurements_Tx p) /\
  evenly_spaced 0 (uxD_max p) (NUM_OBSERVATIONS p) (measurements_uxD p) /\
  Tx_max p = E_target * (uxD_max p / W) /\
  measurement_setter p i s =
    (Return tt,
     {| u_msr_ex := nth (Z.to_nat i) (measurements_uxD p) 0 / W;
        u_msr_nu := u_msr_nu s;
        T_msr_value_x := nth (Z.to_nat i) (measurements_Tx p) 0;
        uxD_msr_value := nth (Z.to_nat i) (measurements_uxD p) 0 |}).
Proof.
  intros HN Hi.
  repeat split;
    try apply length_measurements_Tx;
    try apply length_measurements_uxD;
    try (apply measurement_setter_in_bounds; exact Hi);
    clear Hi i s.
  1-2, 4-5: source_observations p HN; vm_compute; reflexivity.
  all: intros k Hk; source_observations p HN; upto4 k Hk;
    vm_compute; reflexivity.
Qed.

Lemma measurements_evenly_spaced_and_set_witness :
  evenly_spaced 0 (Tx_max source_parameters) 4
    (measurements_Tx source_parameters) /\
  evenly_spaced 0 (uxD_max source_parameters) 4
    (measurements_uxD source_parameters) /\
  Tx_max source_parameters = E_target * (uxD_max source_parameters / W) /\
  measurement_setter source_parameters 2 initial_expression_parameters =
    (Return tt,
     {| u_msr_ex := nth 2 (measurements_uxD source_parameters) 0 / W;
        u_msr_nu := nu_target;
        T_msr_value_x := nth 2 (measurements_Tx source_parameters) 0;
        uxD_msr_value := nth 2 (measurements_uxD source_parameters) 0 |}).
Proof.
  apply (measurements_evenly_spaced_and_set
           source_parameters 2 initial_expression_parameters).
  - reflexivity.
  - simpl. lia.
Defined.

(** C9: [observation_times] is [range(1, NUM_OBSERVATIONS + 1)]; it
    holds exactly [NUM_OBSERVATIONS] times, namely the ints from 1 to
    [NUM_OBSERVATIONS]; each is a valid index into both measurement
    arrays (of length [NUM_OBSERVATIONS + 1]), so [measurement_setter]
    completes without [IndexError] at every observation time; and 0 is
    not an observation time. *)
Theorem observation_times_are_valid_indices
    (p : problem_parameters) (s : expression_parameters) :
  observation_times p = range 1 (Z.of_nat (NUM_OBSERVATIONS p) + 1) /\
  length (observation_times p) = NUM_OBSERVATIONS p /\
  NoDup (observation_times p) /\
  length (measurements_Tx p) = (NUM_OBSERVATIONS p + 1)%nat /\
  length (measurements_uxD p) = (NUM_OBSERVATIONS p + 1)%nat /\
  (forall t, In t (observation_times p) <->
             (1 <= t <= Z.of_nat (NUM_OBSERVATIONS p))%Z) /\
  (forall t, In t (observation_times p) ->
     (0 <= t < Z.of_nat (length (measurements_Tx p)))%Z /\
     (0 <= t < Z.of_nat (length (measurements_uxD p)))%Z /\
     getitem (measurements_Tx p) t
       = Return (nth (Z.to_nat t) (measurements_Tx p) 0) /\
     getitem (measurements_uxD p) t
       = Return (nth (Z.to_nat t) (measurements_uxD p) 0) /\
     fst (measurement_setter p t s) = Return tt) /\
  ~ In 0%Z (observation_times p).
Proof.
  assert (Hin : forall t, In t (observation_times p) <->
                          (1 <= t <= Z.of_nat (NUM_OBSERVATIONS p))%Z).
  { intros t. unfold observation_times. rewrite in_range. lia. }
  split; [reflexivity|].
  split; [unfold observation_times; rewrite length_range; lia|].
  split.
  { unfold observation_times, range.
    apply Injective_map_NoDup; [|apply seq_NoDup].
    intros a b Hab. lia. }
  split; [apply length_measurements_Tx|].
  split; [apply length_measurements_uxD|].
  split; [exact Hin|].
  split.
  - intros t Ht. apply Hin in Ht.
    rewrite length_measurements_Tx, length_measurements_uxD.
    repeat split; try lia.
    + apply getitem_in_bounds. rewrite length_measurements_Tx. lia.
    + apply getitem_in_bounds. rewrite length_measurements_uxD. lia.
    + rewrite measurement_setter_in_bounds by lia. reflexivity.
  - intros H0. apply Hin in H0. lia.
Qed.

Lemma observation_times_are_valid_indices_witness :
  (0 <= 4 < Z.of_nat (length (measurements_Tx source_parameters)))%Z /\
  (0 <= 4 < Z.of_nat (length (measurements_uxD source_parameters)))%Z /\
  getitem (measurements_Tx source_parameters) 4
    = Return (nth 4 (measurements_Tx source_parameters) 0) /\
  getitem (measurements_uxD source_parameters) 4
    = Return (nth 4 (measurements_uxD source_parameters) 0) /\
  fst (measurement_setter source_parameters 4
         initial_expression_parameters) = Return tt.
Proof.
  apply (observation_times_are_valid_indices
           source_parameters initial_expression_parameters).
  vm_compute. repeat (first [left; reflexivity | right]).
Defined.



(** ** Cost formulation *)

(** The list [C] has an element 0, so [C[0]] does not raise. *)
Lemma C_0_exists :
  nth_error C 0 =
    Some (integrate_over
            (Sub (Indexed T_obs 0) (Indexed T_msr 0)) ds_msr_T).
Proof. reflexivity. Qed.

(** C1: for every string value of [FORCE_COST_FORMULATION_METHOD], the
    selection raises if and only if the value is neither "cost" nor
    "constraint", and what it raises is then a [ValueError]; for "cost"
    it completes with [Q = J_u], [L = C[0]] and an empty
    [constraint_multipliers]; for "constraint" it completes with
    [Q = J_u + J_c] and [L = None]. *)
Theorem cost_formulation_selection (p : problem_parameters) :
  let method := FORCE_COST_FORMULATION_METHOD p in
  ((exists e, select_cost_formulation p = Raise e) <->
   (method <> "cost"%string /\ method <> "constraint"%string)) /\
  (forall e, select_cost_formulation p = Raise e ->
             exists msg, e = ValueError msg) /\
  (method = "cost"%string ->
   exists C_0,
     nth_error C 0 = Some C_0 /\
     select_cost_formulation p =
       Return {| constraint_multipliers := [];
                 Q := J_u;
                 L_constraint := Some C_0 |}) /\
  (method = "constraint"%string ->
   select_cost_formulation p =
     Return {| constraint_multipliers := new_constraint_multipliers;
               Q := add_summed J_u J_c;
               L_constraint := None |}).
Proof.
  intros method. unfold select_cost_formulation. fold method.
  rewrite C_0_exists.
  destruct (String.eqb_spec method "cost") as [Hcost|Hcost];
    [|destruct (String.eqb_spec method "constraint") as [Hcon|Hcon]].
  - split; [split|split; [|split]].
    + intros [e He]. discriminate He.
    + intros [Hne _]. contradiction.
    + intros e He. discriminate He.
    + intros _. eexists. split; reflexivity.
    + intros Hcon. rewrite Hcost in Hcon. discriminate Hcon.
  - split; [split|split; [|split]].
    + intros [e He]. discriminate He.
    + intros [_ Hne]. contradiction.
    + intros e He. discriminate He.
    + intros Hc. contradiction.
    + reflexivity.
  - split; [split|split; [|split]].
    + intros _. split; assumption.
    + intros _. eexists. reflexivity.
    + intros e He. injection He as <-. eexists. reflexivity.
    + intros Hc. contradiction.
    + intros Hc. contradiction.
Qed.

Lemma cost_formulation_selection_witness :
  (exists C_0,
     nth_error C 0 = Some C_0 /\
     select_cost_formulation source_parameters =
       Return {| constraint_multipliers := [];
                 Q := J_u;
                 L_constraint := Some C_0 |}) /\
  ((exists e,
      select_cost_formulation
        {| FORCE_COST_FORMULATION_METHOD := "Cost";
           NUM_OBSERVATIONS := 4; SMALL_DISPLACEMENTS := true;
           PLOT_RESULTS := true; SAVE_RESULTS := true |} = Raise e) <->
   ("Cost" <> "cost" /\ "Cost" <> "constraint")%string).
Proof.
  split.
  - apply (cost_formulation_selection source_parameters). reflexivity.
  - apply (cost_formulation_selection
             {| FORCE_COST_FORMULATION_METHOD := "Cost";
                NUM_OBSERVATIONS := 4; SMALL_DISPLACEMENTS := true;
                PLOT_RESULTS := true; SAVE_RESULTS := true |}).
Defined.

(** ** Uses of the inverse solver *)

Ltac in_list := simpl; repeat (first [left; reflexivity | right]).

Lemma solver_uses_at_import_within
    (p : problem_parameters) (cf : cost_formulation)
    (attributes : list string) :
  select_cost_formulation p = Return cf ->
  Forall (within_interface p
            (listed_methods ++ ["set_parameters_inverse_solver"%string])
            attributes)
         (solver_uses_at_import p cf).
Proof.
  intros Hcf. unfold solver_uses_at_import.
  repeat (apply Forall_cons || apply Forall_nil);
    first [ apply within_InverseSolverBasic; exact Hcf
          | apply within_InverseSolver
          | apply within_method; in_list ].
Qed.

Lemma solver_uses_in_main_within
    (p : problem_parameters) (solver_times : list Z) :
  Forall (within_interface p (listed_methods ++ further_methods)
            further_attributes)
         (solver_uses_in_main p solver_times).
Proof.
  unfold solver_uses_in_main.
  destruct (PLOT_RESULTS p || SAVE_RESULTS p)%bool; [|constructor].
  destruct (SAVE_RESULTS p); [|constructor].
  constructor.
  - apply within_attribute. in_list.
  - apply Forall_forall. intros use Huse.
    apply in_map_iff in Huse as (t & <- & _).
    apply within_method. in_list.
Qed.

Lemma within_interface_more_methods
    (p : problem_parameters) (methods methods' attributes attributes'
       : list string) (use : api_use) :
  incl methods methods' -> incl attributes attributes' ->
  within_interface p methods attributes use ->
  within_interface p methods' attributes' use.
Proof.
  intros Hm Ha Huse.
  destruct Huse as [cf Hcf|args|object method args Hin|object name Hin].
  - now apply within_InverseSolverBasic.
  - apply within_InverseSolver.
  - apply within_method. now apply Hm.
  - apply within_attribute. now apply Ha.
Qed.

(** C2, as the code has it: every use of the inverse solver is the
    constructor [InverseSolverBasic(Q, L, F, u, bcs, model_parameters,
    observation_times, measurement_setter)] with its arguments in that
    order, the constructor [InverseSolver(...)], one of the eight listed
    methods or [set_parameters_inverse_solver], or, in a run as the main
    program, the attribute [observation_times] or the method
    [observe_u]; on import only the eight listed methods and
    [set_parameters_inverse_solver] are called, and no attribute is
    read. *)
Theorem solver_uses_within_interface
    (p : problem_parameters) (run_as_main : bool) (solver_times : list Z) :
  Forall (within_interface p (listed_methods ++ further_methods)
            further_attributes)
         (solver_uses p run_as_main solver_times) /\
  Forall (within_interface p
            (listed_methods ++ ["set_parameters_inverse_solver"%string]) [])
         (solver_uses p false solver_times).
Proof.
  unfold solver_uses.
  destruct (select_cost_formulation p) as [cf|e] eqn:Hcf;
    [|split; constructor].
  split.
  - apply Forall_app. split.
    + eapply Forall_impl;
        [|apply (solver_uses_at_import_within p cf further_attributes Hcf)].
      intros use. apply within_interface_more_methods.
      * intros m Hm. unfold further_methods.
        apply in_app_or in Hm as [Hm|Hm];
          apply in_or_app; [left; exact Hm|right].
        destruct Hm as [<-|[]]. left. reflexivity.
      * apply incl_refl.
    + destruct run_as_main; [|constructor].
      apply solver_uses_in_main_within.
  - rewrite app_nil_r.
    apply (solver_uses_at_import_within p cf [] Hcf).
Qed.

(** C2 as stated fails: already on import, with the script's own
    parameters, the script calls [set_parameters_inverse_solver], which
    is none of the eight listed methods. *)
Lemma solver_uses_outside_listed_interface :
  In (call "inverse_solver" "set_parameters_inverse_solver"
        [arg_settings parameters_inverse_solver])
     (solver_uses source_parameters false []) /\
  ~ Forall (within_interface source_parameters listed_methods [])
           (solver_uses source_parameters false []).
Proof.
  assert (Hin : In (call "inverse_solver" "set_parameters_inverse_solver"
                      [arg_settings parameters_inverse_solver])
                   (solver_uses source_parameters false [])).
  { vm_compute. right. right. left. reflexivity. }
  split; [exact Hin|].
  intros Hall.
  rewrite Forall_forall in Hall. specialize (Hall _ Hin).
  inversion Hall as [| |object method args Hm|]; subst.
  simpl in Hm.
  repeat (destruct Hm as [Hm|Hm]; [discriminate Hm|]).
  exact Hm.
Qed.

(** Every member of the interface above is in use: with the script's
    own parameters each listed method and [set_parameters_inverse_solver]
    is called on import, and a run as the main program reads
    [observation_times] and calls [observe_u] at each time it yields. *)
Lemma solver_interface_is_used :
  (forall method,
     In method (listed_methods ++ ["set_parameters_inverse_solver"%string]) ->
     exists args,
       In (call "inverse_solver" method args)
          (solver_uses source_parameters false [])) /\
  In (attribute "inverse_solver" "observation_times")
     (solver_uses source_parameters true
        (observation_times source_parameters)) /\
  (forall t,
     In t (observation_times source_parameters) ->
     In (call "inverse_solver" "observe_u"
           [arg_time t; arg_keyword "copy" false])
        (solver_uses source_parameters true
           (observation_times source_parameters))).
Proof.
  split; [|split].
  - intros method Hm. simpl in Hm.
    repeat (destruct Hm as [<-|Hm];
            [eexists; vm_compute; in_list|]).
    destruct Hm.
  - vm_compute. in_list.
  - intros t Ht. vm_compute in Ht.
    repeat (destruct Ht as [<-|Ht]; [vm_compute; in_list|]).
    destruct Ht.
Qed.

(** ** The material model *)

Local Open Scope R_scope.

(** The float operands of the material model are the reals they
    denote. *)
Lemma float_to_R_1 : float_to_R 1.0 = 1.
Proof.
  unfold float_to_R.
  replace (Prim2SF 1.0) with (S754_finite false 4503599627370496 (-52))
    by (vm_compute; reflexivity).
  cbn [powerRZ]. rewrite pow_IZR.
  replace (2 ^ Z.of_nat (Pos.to_nat 52))%Z with 4503599627370496%Z
    by (vm_compute; reflexivity).
  field.
Qed.

Lemma float_to_R_2 : float_to_R 2.0 = 2.
Proof.
  unfold float_to_R.
  replace (Prim2SF 2.0) with (S754_finite false 4503599627370496 (-51))
    by (vm_compute; reflexivity).
  cbn [powerRZ]. rewrite pow_IZR.
  replace (2 ^ Z.of_nat (Pos.to_nat 51))%Z with 2251799813685248%Z
    by (vm_compute; reflexivity).
  field.
Qed.

(** The name [F] is a variable standing for [I + grad(u)]. *)
Lemma eval_F (gradient : (mat -> R) -> mat -> mat) (s : fields) :
  eval gradient s F no_bindings = Some (Matrix (deformation_gradient s)).
Proof. reflexivity. Qed.

(** While a derivative with respect to [F] is taken, [F] stands for the
    matrix at which the energy is evaluated. *)
Lemma eval_F_bound
    (gradient : (mat -> R) -> mat -> mat) (s : fields)
    (X : mat) (rho : bindings) :
  eval gradient s F (bind_variable 0 X rho) = Some (Matrix X).
Proof. reflexivity. Qed.

Lemma eval_lm (gradient : (mat -> R) -> mat -> mat) (s : fields)
    (rho : bindings) :
  eval gradient s lm rho
  = Some (Scalar (lame_lambda (at_E s) (at_nu s))).
Proof.
  unfold lm. cbn [eval E nu coefficient_value].
  now rewrite float_to_R_1, float_to_R_2.
Qed.

Lemma eval_mu (gradient : (mat -> R) -> mat -> mat) (s : fields)
    (rho : bindings) :
  eval gradient s mu rho = Some (Scalar (lame_mu (at_E s) (at_nu s))).
Proof.
  unfold mu. cbn [eval E nu coefficient_value].
  now rewrite float_to_R_2.
Qed.

(** The energy density as a function of the value of the variable
    [F]. *)
Lemma eval_psi_bound
    (gradient : (mat -> R) -> mat -> mat) (s : fields)
    (X : mat) (rho : bindings) :
  eval gradient s psi (bind_variable 0 X rho)
  = Some (Scalar (neo_hookean (at_E s) (at_nu s) X)).
Proof.
  unfold psi. cbn [eval].
  rewrite eval_mu, eval_lm.
  unfold I1, J, C_strain. cbn [eval]. rewrite !eval_F_bound.
  rewrite float_to_R_2.
  unfold neo_hookean, d. cbn [powerRZ]. reflexivity.
Qed.

Lemma eval_psi (gradient : (mat -> R) -> mat -> mat) (s : fields) :
  eval gradient s psi no_bindings
  = Some (Scalar (neo_hookean (at_E s) (at_nu s) (deformation_gradient s))).
Proof.
  unfold psi. cbn [eval].
  rewrite eval_mu, eval_lm.
  unfold I1, J, C_strain. cbn [eval]. rewrite !eval_F.
  rewrite float_to_R_2.
  unfold neo_hookean, d. cbn [powerRZ]. reflexivity.
Qed.

(** C5: at every point, the energy density the script builds has the
    Neo-Hookean value
    [(mu/2)*(I1 - d - 2*ln(J)) + (lm/2)*ln(J)^2] with
    [I1 = tr(F^T F)], [J = det(F)], [F = I + grad(u)], [d = 3] the
    displacement dimension, [mu = E/(2 + 2*nu)] and
    [lm = E*nu/((1 + nu)*(1 - 2*nu))], [E] and [nu] being the values of
    the two material parameters. *)
Theorem psi_is_neo_hookean
    (gradient : (mat -> R) -> mat -> mat) (s : fields) :
  eval gradient s psi no_bindings
    = Some (Scalar (neo_hookean (at_E s) (at_nu s)
                      (deformation_gradient s))) /\
  d = 3%Z /\
  eval gradient s F no_bindings = Some (Matrix (deformation_gradient s)) /\
  eval gradient s I1 no_bindings
    = Some (Scalar (trace (mat_mat (transpose (deformation_gradient s))
                             (deformation_gradient s)))) /\
  eval gradient s J no_bindings
    = Some (Scalar (determinant (deformation_gradient s))) /\
  eval gradient s mu no_bindings
    = Some (Scalar (at_E s / (2 + 2 * at_nu s))) /\
  eval gradient s lm no_bindings
    = Some (Scalar (at_E s * at_nu s
                    / ((1 + at_nu s) * (1 - 2 * at_nu s)))).
Proof.
  repeat split.
  - apply eval_psi.
  - apply eval_mu.
  - apply eval_lm.
Qed.

(** The function the derivative in [pk1] is taken of: the energy
    density as a function of the deformation gradient. *)
Lemma psi_as_function_of_F
    (gradient : (mat -> R) -> mat -> mat) (s : fields) :
  (fun X => scalar_of (eval gradient s psi
                         (bind_variable 0 X no_bindings)))
  = neo_hookean (at_E s) (at_nu s).
Proof.
  apply functional_extensionality. intros X.
  now rewrite eval_psi_bound.
Qed.

Lemma eval_pk1 (gradient : (mat -> R) -> mat -> mat) (s : fields) :
  eval gradient s pk1 no_bindings
  = Some (Matrix (gradient (neo_hookean (at_E s) (at_nu s))
                    (deformation_gradient s))).
Proof.
  unfold pk1, F. cbn [eval]. fold F.
  change (eval gradient s (Add I (Grad u)) no_bindings)
    with (Some (Matrix (deformation_gradient s))).
  cbv iota. now rewrite psi_as_function_of_F.
Qed.

Lemma eval_T_obs (gradient : (mat -> R) -> mat -> mat) (s : fields) :
  eval gradient s T_obs no_bindings
  = Some (Vector (mat_vec (gradient (neo_hookean (at_E s) (at_nu s))
                             (deformation_gradient s))
                          (at_N s))).
Proof.
  unfold T_obs, PN. cbn [eval]. now rewrite eval_pk1.
Qed.

(** C4: [pk1] is the derivative of the energy density [psi] with
    respect to the variable [F = I + grad(u)], so that at every point
    its value is the derivative of the Neo-Hookean energy, taken as a
    function of the deformation gradient, at [I + grad(u)]; and the
    observed traction [T_obs] is [dot(pk1, N)], whose value is the
    product of that matrix with the facet normal. *)
Theorem pk1_is_derivative_of_psi
    (gradient : (mat -> R) -> mat -> mat) (s : fields) :
  pk1 = VariableDerivative psi F /\
  F = Var 0 (Add I (Grad u)) /\
  T_obs = Dot pk1 N /\
  eval gradient s pk1 no_bindings
    = Some (Matrix (gradient (neo_hookean (at_E s) (at_nu s))
                      (deformation_gradient s))) /\
  eval gradient s T_obs no_bindings
    = Some (Vector (mat_vec (gradient (neo_hookean (at_E s) (at_nu s))
                               (deformation_gradient s))
                            (at_N s))).
Proof.
  repeat split.
  - apply eval_pk1.
  - apply eval_T_obs.
Qed.

(** ** The model cost *)

(** The two forms of the script, written out: the displacement misfit
    is one form of two boundary integrals, and the reaction-force
    misfit is a list of one form of one boundary integral. *)
Lemma J_u_integrals :
  J_u = a_form
          [ {| integrand := Pow (Sub (Indexed u_obs 0) (Indexed u_msr 0))
                                (IntValue 2);
               measure := ds_msr_u |};
            {| integrand := Pow (Sub (Indexed u_obs 1) (Indexed u_msr 1))
                                (IntValue 2);
               measure := ds_msr_u |} ].
Proof. reflexivity. Qed.

Lemma integrand_displacement_misfit
    (gradient : (mat -> R) -> mat -> mat)
    (point : Type) (field : point -> fields) (i : Z) :
  (0 <= i <= 2)%Z ->
  integrand_at gradient point field
    (Pow (Sub (Indexed u_obs i) (Indexed u_msr i)) (IntValue 2))
  = fun x => displacement_misfit (field x) i.
Proof.
  intros Hi. apply functional_extensionality. intros x.
  unfold integrand_at, displacement_misfit, component_of.
  cbn [eval u_obs u u_msr coefficient_value].
  assert (Hcases : i = 0%Z \/ i = 1%Z \/ i = 2%Z) by lia.
  destruct Hcases as [ -> | [ -> | -> ] ]; cbn; reflexivity.
Qed.

Lemma integrand_traction_misfit
    (gradient : (mat -> R) -> mat -> mat)
    (point : Type) (field : point -> fields) (i : Z) :
  (0 <= i <= 2)%Z ->
  integrand_at gradient point field
    (Sub (Indexed T_obs i) (Indexed T_msr i))
  = fun x =>
      traction_misfit
        (traction (gradient (neo_hookean (at_E (field x)) (at_nu (field x)))
                     (deformation_gradient (field x)))
                  (at_N (field x)))
        (field x) i.
Proof.
  intros Hi. apply functional_extensionality. intros x.
  unfold integrand_at, traction_misfit, traction, component_of.
  cbn [eval]. rewrite eval_T_obs.
  cbn [T_msr eval coefficient_value].
  assert (Hcases : i = 0%Z \/ i = 1%Z \/ i = 2%Z) by lia.
  destruct Hcases as [ -> | [ -> | -> ] ]; reflexivity.
Qed.

(** C6: the displacement misfit [J_u] is the sum, over the indices in
    [using_subdims_u_msr], of the integral of
    [(u_obs[i] - u_msr[i])^2] over the displacement-measurement
    boundary (the boundary facets marked for [boundary_dic]); and the
    list [C] holds, for each index in [using_subdims_T_msr], the
    integral of [T_obs[i] - T_msr[i]] over the traction-measurement
    boundary (the boundary facets marked for [boundary_msr]), [T_obs]
    being the traction [pk1 . N]. *)
Theorem cost_is_measurement_misfit
    (gradient : (mat -> R) -> mat -> mat)
    (point : Type) (field : point -> fields)
    (integral_over : Measure -> (point -> R) -> R) :
  summed_value gradient point field integral_over J_u
    = fold_right Rplus 0
        (map (fun i => integral_over ds_msr_u
                         (fun x => displacement_misfit (field x) i))
             using_subdims_u_msr) /\
  map (form_value gradient point field integral_over) C
    = map (fun i =>
             integral_over ds_msr_T
               (fun x =>
                  traction_misfit
                    (traction
                       (gradient
                          (neo_hookean (at_E (field x)) (at_nu (field x)))
                          (deformation_gradient (field x)))
                       (at_N (field x)))
                    (field x) i))
          using_subdims_T_msr /\
  integral_kind ds_msr_u = exterior_facet_integral /\
  measure_subdomain ds_msr_u = [boundary_dic] /\
  integral_kind ds_msr_T = exterior_facet_integral /\
  measure_subdomain ds_msr_T = [boundary_msr].
Proof.
  split; [|split; [|repeat split]].
  - rewrite J_u_integrals.
    unfold summed_value, form_value, using_subdims_u_msr.
    cbn [map fold_right integrand measure].
    rewrite !integrand_displacement_misfit by lia. reflexivity.
  - unfold C, using_subdims_T_msr, form_value, integrate_over.
    cbn [map fold_right integrand measure].
    rewrite integrand_traction_misfit by lia.
    now rewrite Rplus_0_r.
Qed.

Local Close Scope R_scope.

(** ** Mesh and boundary conditions *)

Lemma every_vertex_spec (m : BoxMesh)
    (test : nat -> nat -> nat -> Point -> bool) :
  every_vertex m test = true ->
  forall ix iy iz,
    (Z.of_nat ix <= cells_x m)%Z ->
    (Z.of_nat iy <= cells_y m)%Z ->
    (Z.of_nat iz <= cells_z m)%Z ->
    test ix iy iz (vertex m ix iy iz) = true.
Proof.
  unfold every_vertex. intros Hall ix iy iz Hx Hy Hz.
  rewrite forallb_forall in Hall.
  specialize (Hall ix). rewrite forallb_forall in Hall.
  specialize (Hall ltac:(apply in_seq; lia) iy).
  rewrite forallb_forall in Hall.
  apply Hall; apply in_seq; lia.
Qed.

Lemma every_vertex_is_selected_as_named :
  every_vertex mesh selects_the_named_vertices = true.
Proof. vm_compute. reflexivity. Qed.

(** The marker a facet ends with: the last of the three subdomains
    that holds all its test points, and 0 if none does. *)
Lemma marker_of_boundary_markers (facet : list Point) (on_bdry : bool) :
  marker_of boundary_markers facet on_bdry =
    if forallb (fun x => inside boundary_dic x on_bdry) facet
    then id_subdomains_dic
    else if forallb (fun x => inside boundary_msr x on_bdry) facet
    then id_subdomain_msr
    else if forallb (fun x => inside boundary_fix x on_bdry) facet
    then id_subdomain_fix
    else 0%nat.
Proof.
  unfold marker_of, boundary_markers. cbn [fold_left fst snd].
  destruct (forallb (fun x => inside boundary_dic x on_bdry) facet),
           (forallb (fun x => inside boundary_msr x on_bdry) facet),
           (forallb (fun x => inside boundary_fix x on_bdry) facet);
    reflexivity.
Qed.

Lemma faces_marked_as_meant_mesh : faces_marked_as_meant mesh = true.
Proof. vm_compute. reflexivity. Qed.

Lemma faces_marked_as_meant_spec (m : BoxMesh) (f : box_face)
    (t : Point * Point * Point) :
  faces_marked_as_meant m = true ->
  In t (face_triangles m f) ->
  marker_of boundary_markers (test_points t) true = face_marker f.
Proof.
  unfold faces_marked_as_meant. intros Hall Ht.
  rewrite forallb_forall in Hall.
  assert (Hf : In f all_faces) by (destruct f; simpl; tauto).
  specialize (Hall _ Hf). rewrite forallb_forall in Hall.
  apply Nat.eqb_eq. now apply Hall.
Qed.

Lemma faces_lie_as_named_mesh : faces_lie_as_named mesh = true.
Proof. vm_compute. reflexivity. Qed.

Lemma faces_lie_as_named_spec (m : BoxMesh) (f : box_face)
    (t : Point * Point * Point) :
  faces_lie_as_named m = true ->
  In t (face_triangles m f) ->
  lies_in_plane_x 0 t = is_face_x_min f /\
  lies_in_plane_x W t = is_face_x_max f.
Proof.
  unfold faces_lie_as_named. intros Hall Ht.
  rewrite forallb_forall in Hall.
  assert (Hf : In f all_faces) by (destruct f; simpl; tauto).
  specialize (Hall _ Hf). rewrite forallb_forall in Hall.
  specialize (Hall _ Ht). apply andb_prop in Hall as [H0 HW].
  split; now apply Bool.eqb_prop.
Qed.

(** What the script's conditions prescribe on a facet, from the marker
    the facet ends with. *)
Lemma prescribed_on_facet_bcs (t : Point * Point * Point) (on_bdry : bool) :
  prescribed_on_facet bcs t on_bdry
  = ((if Nat.eqb (marker_of boundary_markers (test_points t) on_bdry)
                 id_subdomain_fix
      then [([0%nat], zero)] else [])
     ++ (if Nat.eqb (marker_of boundary_markers (test_points t) on_bdry)
                    id_subdomain_msr
         then [([0%nat], uxD_msr)] else []))%list.
Proof.
  unfold prescribed_on_facet, bcs, applies_on_facet.
  cbn [filter bc_where].
  destruct (Nat.eqb _ id_subdomain_fix), (Nat.eqb _ id_subdomain_msr);
    reflexivity.
Qed.

(** What the script's conditions prescribe at a point, from the two
    pointwise subdomains. *)
Lemma prescribed_at_point_bcs (x : Point) (on_bdry : bool) :
  prescribed_at_point bcs x on_bdry
  = ((if inside fixed_vertex_000 x true
      then [([0; 1; 2]%nat, zeros)] else [])
     ++ (if inside fixed_vertex_010 x true
         then [([2%nat], zero)] else []))%list.
Proof.
  unfold prescribed_at_point, bcs, applies_at_point.
  cbn [filter bc_where].
  change (inside fixed_vertex_000 x on_bdry)
    with (inside fixed_vertex_000 x true).
  change (inside fixed_vertex_010 x on_bdry)
    with (inside fixed_vertex_010 x true).
  destruct (inside fixed_vertex_000 x true),
           (inside fixed_vertex_010 x true); reflexivity.
Qed.

(** C7: the mesh is the box from [(0, 0, 0)] to
    [(W, L, H) = (2, 1, 1)], and there are exactly four Dirichlet
    conditions, whose components and values are x-displacement [zero],
    x-displacement [uxD_msr], all three components [zeros] and
    z-displacement [zero].  Where they hold is read off the markers the
    facets end with after the three [mark] calls and off the pointwise
    subdomains: on a boundary facet [t] of the face [f] of the mesh the
    conditions prescribe x-displacement [zero] when [f] is the face
    [x = 0], x-displacement [uxD_msr] when [f] is the face [x = W], and
    nothing on the other four faces, a facet lying in the plane
    [x = 0] exactly when it is on the first of these faces and in the
    plane [x = W] exactly when it is on the second; on a facet inside
    the box they prescribe nothing; and at a vertex [(ix, iy, iz)] of
    the mesh the pointwise conditions prescribe [zeros] for all
    components exactly at the vertex [(0, 0, 0)], which has these
    coordinates, and z-displacement [zero] exactly at the vertex
    [(0, ny, 0)], which has the coordinates [(0, L, 0)], whichever
    boundary flag the subdomains are asked with.  At every
    vertex the four subdomains hold exactly where the vertex has
    [x = 0], has [x = W], is [(0, 0, 0)] and is [(0, L, 0)], the
    vertices with [x = 0] being those with [ix = 0] and the vertices
    with [x = W] those with [ix = nx]. *)
Theorem box_under_uniaxial_tension
    (f : box_face) (t : Point * Point * Point) (ix iy iz : nat) :
  In t (face_triangles mesh f) ->
  (Z.of_nat ix <= nx)%Z ->
  (Z.of_nat iy <= ny)%Z ->
  (Z.of_nat iz <= nz)%Z ->
  let v := vertex mesh ix iy iz in
  (corner_0 mesh = {| x_0 := 0; x_1 := 0; x_2 := 0 |} /\
   corner_1 mesh = {| x_0 := W; x_1 := L; x_2 := H |} /\
   (W, L, H) = (2, 1, 1)) /\
  (map constraint_of bcs
   = [ ([0%nat], zero); ([0%nat], uxD_msr);
       ([0; 1; 2]%nat, zeros); ([2%nat], zero) ]) /\
  (prescribed_on_facet bcs t true
   = match f with
     | face_x_min => [([0%nat], zero)]
     | face_x_max => [([0%nat], uxD_msr)]
     | face_y_min | face_y_max | face_z_min | face_z_max => []
     end /\
   lies_in_plane_x 0 t = is_face_x_min f /\
   lies_in_plane_x W t = is_face_x_max f /\
   prescribed_on_facet bcs t false = []) /\
  ((forall on_bdry,
      prescribed_at_point bcs v on_bdry
      = ((if (Nat.eqb ix 0 && Nat.eqb iy 0 && Nat.eqb iz 0)%bool
          then [([0; 1; 2]%nat, zeros)] else [])
         ++ (if (Nat.eqb ix 0 && Nat.eqb iy (Z.to_nat ny)
                 && Nat.eqb iz 0)%bool
             then [([2%nat], zero)] else []))%list) /\
   vertex mesh 0 0 0 = {| x_0 := 0; x_1 := 0; x_2 := 0 |} /\
   vertex mesh 0 (Z.to_nat ny) 0 = {| x_0 := 0; x_1 := L; x_2 := 0 |}) /\
  inside boundary_fix v true = PrimFloat.eqb (x_0 v) 0 /\
  inside boundary_msr v true = PrimFloat.eqb (x_0 v) W /\
  inside fixed_vertex_000 v true
    = (PrimFloat.eqb (x_0 v) 0 && PrimFloat.eqb (x_1 v) 0
       && PrimFloat.eqb (x_2 v) 0)%bool /\
  inside fixed_vertex_010 v true
    = (PrimFloat.eqb (x_0 v) 0 && PrimFloat.eqb (x_1 v) L
       && PrimFloat.eqb (x_2 v) 0)%bool /\
  PrimFloat.eqb (x_0 v) 0 = Nat.eqb ix 0 /\
  PrimFloat.eqb (x_0 v) W = Nat.eqb ix (Z.to_nat nx).
Proof.
  intros Ht Hx Hy Hz v.
  pose proof (every_vertex_spec mesh selects_the_named_vertices
                every_vertex_is_selected_as_named ix iy iz Hx Hy Hz) as Hv.
  fold v in Hv. unfold selects_the_named_vertices in Hv.
  repeat (apply andb_prop in Hv as [Hv ?Hsel]).
  repeat match goal with
         | H : Bool.eqb _ _ = true |- _ => apply Bool.eqb_prop in H
         end.
  split; [repeat split|].
  split; [reflexivity|].
  split; [|split].
  - destruct (faces_lie_as_named_spec mesh f t faces_lie_as_named_mesh Ht)
      as [Hmin Hmax].
    split; [|split; [exact Hmin|split; [exact Hmax|]]].
    + rewrite prescribed_on_facet_bcs.
      rewrite (faces_marked_as_meant_spec mesh f t
                 faces_marked_as_meant_mesh Ht).
      destruct f; reflexivity.
    + rewrite prescribed_on_facet_bcs.
      destruct t as [[a b] c]. reflexivity.
  - split; [|split; vm_compute; reflexivity].
    intros on_bdry. rewrite prescribed_at_point_bcs.
    replace (inside fixed_vertex_000 v true)
      with (Nat.eqb ix 0 && Nat.eqb iy 0 && Nat.eqb iz 0)%bool
      by congruence.
    replace (inside fixed_vertex_010 v true)
      with (Nat.eqb ix 0 && Nat.eqb iy (Z.to_nat ny) && Nat.eqb iz 0)%bool
      by congruence.
    reflexivity.
  - repeat split; congruence.
Qed.

Lemma box_under_uniaxial_tension_witness :
  let t := (face_vertex mesh face_x_max 3 4,
            face_vertex mesh face_x_max 4 4,
            face_vertex mesh face_x_max 3 5) in
  prescribed_on_facet bcs t true = [([0%nat], uxD_msr)] /\
  prescribed_at_point bcs (vertex mesh 0 10 0) false = [([2%nat], zero)].
Proof.
  pose proof (box_under_uniaxial_tension face_x_max
                (face_vertex mesh face_x_max 3 4,
                 face_vertex mesh face_x_max 4 4,
                 face_vertex mesh face_x_max 3 5) 0 10 0) as Hbox.
  cbv zeta in Hbox.
  destruct Hbox as (_ & _ & (Hfacet & _) & (Hpoint & _) & _).
  - unfold face_triangles.
    apply in_flat_map. exists 3%nat. split; [apply in_seq; vm_compute; lia|].
    apply in_flat_map. exists 4%nat. split; [apply in_seq; vm_compute; lia|].
    left. reflexivity.
  - vm_compute; discriminate.
  - vm_compute; discriminate.
  - vm_compute; discriminate.
  - split; [exact Hfacet|exact (Hpoint false)].
Defined.

(** ** Further properties of the fabricated measurements *)

Lemma checked_up_to_64 : checked_up_to 64 = true.
Proof. vm_compute. reflexivity. Qed.

Lemma measurements_depend_on_observations (p : problem_parameters) :
  measurements_Tx p
    = measurements_Tx
        (with_observations (NUM_OBSERVATIONS p) (SMALL_DISPLACEMENTS p)) /\
  measurements_uxD p
    = measurements_uxD
        (with_observations (NUM_OBSERVATIONS p) (SMALL_DISPLACEMENTS p)).
Proof. destruct p. split; reflexivity. Qed.

Lemma checked_up_to_spec (bound n : nat) (small : bool) (i j : nat) :
  checked_up_to bound = true ->
  (n <= bound)%nat ->
  (i <= j <= n)%nat ->
  consistent_at (measurements_Tx (with_observations n small))
                (measurements_uxD (with_observations n small)) j = true /\
  ordered_at (measurements_Tx (with_observations n small))
             (measurements_uxD (with_observations n small)) i j = true.
Proof.
  unfold checked_up_to. intros Hall Hn Hij.
  rewrite forallb_forall in Hall.
  assert (Hin_n : In n (seq 0 (bound + 1))) by (apply in_seq; lia).
  specialize (Hall _ Hin_n).
  rewrite forallb_forall in Hall.
  assert (Hin_small : In small [true; false])
    by (destruct small; simpl; auto).
  specialize (Hall _ Hin_small). cbv zeta in Hall.
  rewrite forallb_forall in Hall.
  assert (Hin_j : In j (seq 0 (n + 1))) by (apply in_seq; lia).
  specialize (Hall _ Hin_j).
  apply andb_prop in Hall as [Hcons Hord].
  rewrite forallb_forall in Hord.
  assert (Hin_i : In i (seq 0 (j + 1))) by (apply in_seq; lia).
  split; [exact Hcons|exact (Hord _ Hin_i)].
Qed.

(** For every number of observations up to 64, in both displacement
    configurations, the fabricated values at every index [j] satisfy
    the target law as Python compares floats
    ([Tx[j] == E_target * (uxD[j] / W)] and
    [uxD[j] == W * (uxD[j] / W)]), and both sequences are
    non-decreasing. *)
Theorem measurements_consistent_up_to_64_observations
    (p : problem_parameters) (i j : nat) :
  (NUM_OBSERVATIONS p <= 64)%nat ->
  (i <= j <= NUM_OBSERVATIONS p)%nat ->
  consistent_at (measurements_Tx p) (measurements_uxD p) j = true /\
  ordered_at (measurements_Tx p) (measurements_uxD p) i j = true.
Proof.
  intros Hn Hij.
  destruct (measurements_depend_on_observations p) as [HTx HuxD].
  rewrite HTx, HuxD.
  exact (checked_up_to_spec 64 (NUM_OBSERVATIONS p) (SMALL_DISPLACEMENTS p)
           i j checked_up_to_64 Hn Hij).
Qed.

Lemma measurements_consistent_up_to_64_observations_witness :
  consistent_at (measurements_Tx (with_observations 7 false))
                (measurements_uxD (with_observations 7 false)) 5 = true /\
  ordered_at (measurements_Tx (with_observations 7 false))
             (measurements_uxD (with_observations 7 false)) 2 5 = true.
Proof.
  apply (measurements_consistent_up_to_64_observations
           (with_observations 7 false) 2 5);
    cbn [NUM_OBSERVATIONS with_observations]; lia.
Defined.

(** An index past the last measurement makes [measurement_setter] raise
    [IndexError] and leaves every expression parameter as it was, and
    the index [-1] sets the last measurement, as numpy counts a
    negative index from the end. *)
Theorem measurement_setter_outside_observations
    (p : problem_parameters) (i : Z) (s : expression_parameters) :
  (Z.of_nat (NUM_OBSERVATIONS p) < i)%Z ->
  measurement_setter p i s = (Raise IndexError, s) /\
  measurement_setter p (-1) s
    = measurement_setter p (Z.of_nat (NUM_OBSERVATIONS p)) s.
Proof.
  intros Hi. split.
  - now apply measurement_setter_out_of_bounds.
  - unfold measurement_setter, getitem.
    rewrite length_measurements_Tx, length_measurements_uxD.
    replace (-1 <? 0)%Z with true by reflexivity.
    replace (-1 + Z.of_nat (NUM_OBSERVATIONS p + 1))%Z
      with (Z.of_nat (NUM_OBSERVATIONS p)) by lia.
    destruct (Z.ltb_spec (Z.of_nat (NUM_OBSERVATIONS p)) 0); [lia|].
    reflexivity.
Qed.

Lemma measurement_setter_outside_observations_witness :
  measurement_setter source_parameters 5 initial_expression_parameters
    = (Raise IndexError, initial_expression_parameters) /\
  measurement_setter source_parameters (-1) initial_expression_parameters
    = measurement_setter source_parameters
        (Z.of_nat (NUM_OBSERVATIONS source_parameters))
        initial_expression_parameters.
Proof.
  apply (measurement_setter_outside_observations
           source_parameters 5 initial_expression_parameters).
  simpl. lia.
Defined.

(** ** Further properties of the material model and the mesh *)

Local Open Scope R_scope.



Local Close Scope R_scope.

(** The mesh has 20 cells along x and 10 along y and z:
    [nx = max(int(nz*W/H), 1)] and [ny = max(int(nz*L/H), 1)] with
    [nz = 10]. *)
Theorem mesh_cells :
  cells_x mesh = 20%Z /\ cells_y mesh = 10%Z /\ cells_z mesh = 10%Z.
Proof. vm_compute. repeat split. Qed.

(** The form handed to the solver as [F] is the script's second binding
    of that name, the derivative of the potential energy [psi*dx] with
    respect to [u], whatever the cost formulation. *)
Theorem solver_receives_equilibrium_form
    (p : problem_parameters) (cf : cost_formulation) :
  nth_error (InverseSolverBasic_arguments p cf) 2
    = Some (arg_form
              [ {| integrand := CoefficientDerivative psi u;
                   measure := dx |} ]).
Proof. reflexivity. Qed.

(** ** The names of the model parameters *)

Lemma append_cancel_l (s a b : string) :
  (s ++ a)%string = (s ++ b)%string -> a = b.
Proof.
  induction s as [|c s IH]; cbn; intros Hab; [exact Hab|].
  injection Hab as Hab. now apply IH.
Qed.

(** Distinct ints have distinct decimal representations. *)
Lemma str_int_injective (i j : Z) : str_int i = str_int j -> i = j.
Proof.
  unfold str_int. intros Hij.
  assert (Hproper : forall z, Z.to_int z <> Decimal.Pos Nil /\
                              Z.to_int z <> Decimal.Neg Nil).
  { intros z. split; intros Hz; pose proof (f_equal Z.of_int Hz) as Hz0;
      rewrite DecimalZ.of_to in Hz0; cbn in Hz0; subst z;
      discriminate Hz. }
  apply DecimalZ.to_int_inj.
  assert (Hsome : Some (Z.to_int i) = Some (Z.to_int j)).
  { rewrite <- (NilZero.isi (Z.to_int i)) by apply Hproper.
    rewrite <- (NilZero.isi (Z.to_int j)) by apply Hproper.
    now rewrite Hij. }
  now injection Hsome.
Qed.

(** The plots have exactly one name per model parameter (the material
    parameters and the constraint multipliers), and no two parameters
    share a name, however many constraint multipliers there are. *)
Theorem model_parameter_names_label_every_parameter
    (multipliers : list expr) :
  length (model_parameter_names multipliers)
    = (length material_parameters + length multipliers)%nat /\
  NoDup (model_parameter_names multipliers).
Proof.
  unfold model_parameter_names.
  assert (Hkeys : NoDup (map fst material_parameters)).
  { cbn. repeat constructor; cbn; intuition discriminate. }
  destruct (Nat.ltb_spec 1 (length multipliers)) as [Hmany|Hfew];
    [|destruct (Nat.eqb_spec (length multipliers) 1) as [Hone|Hnone]].
  - split.
    + rewrite length_app, !length_map, length_range. cbn. lia.
    + apply NoDup_app; [exact Hkeys| |].
      * apply Injective_map_NoDup.
        -- intros i j Hij. apply str_int_injective.
           now apply append_cancel_l in Hij.
        -- unfold range. apply Injective_map_NoDup; [|apply seq_NoDup].
           intros a b Hab. lia.
      * intros name Hname Hin. apply in_map_iff in Hin as (i & <- & _).
        cbn in Hname. destruct Hname as [H|[H|[]]]; discriminate H.
  - split.
    + rewrite length_app, Hone. cbn. reflexivity.
    + cbn. repeat constructor; cbn; intuition discriminate.
  - split.
    + rewrite length_map. lia.
    + exact Hkeys.
Qed.

(** ** The force-displacement curve *)

Lemma skipn_cons_nth (a : list float) (k : nat) :
  (k < length a)%nat ->
  skipn k a = nth k a 0%float :: skipn (S k) a.
Proof.
  revert k. induction a as [|x a IH]; intros k Hk; cbn in Hk; [lia|].
  destruct k as [|k]; [reflexivity|].
  cbn [skipn nth]. apply IH. lia.
Qed.

Lemma comprehension_getitem_seq (a : list float) (m k : nat) :
  (k + m = length a)%nat ->
  comprehension (getitem a) (map Z.of_nat (seq k m)) = Return (skipn k a).
Proof.
  revert k. induction m as [|m IH]; intros k Hk.
  - cbn. rewrite skipn_all2 by lia. reflexivity.
  - cbn [seq map comprehension].
    rewrite getitem_in_bounds by lia.
    rewrite IH by lia.
    rewrite Nat2Z.id.
    rewrite (skipn_cons_nth a k) by lia. reflexivity.
Qed.

(** The displacements of the force-displacement curve are the fabricated
    displacement measurements without the first, zero-load one: the
    comprehension never raises, and it yields one displacement per
    observation time, for every number of observations. *)
Theorem reaction_displacements_are_the_loaded_measurements
    (p : problem_parameters) :
  reaction_displacement_magnitude_i p = Return (tl (measurements_uxD p)) /\
  length (tl (measurements_uxD p)) = length (observation_times p) /\
  measurements_uxD p
    = nth 0 (measurements_uxD p) 0%float :: tl (measurements_uxD p).
Proof.
  assert (Hlen := length_measurements_uxD p).
  split; [|split].
  - unfold reaction_displacement_magnitude_i, observation_times, range.
    replace (Z.to_nat (Z.of_nat (NUM_OBSERVATIONS p) + 1 - 1))
      with (NUM_OBSERVATIONS p) by lia.
    rewrite <- (map_ext (fun k => Z.of_nat (S k)))
      by (intros k; lia).
    rewrite <- (map_map S Z.of_nat), seq_shift.
    rewrite comprehension_getitem_seq by lia.
    reflexivity.
  - unfold observation_times. rewrite length_range.
    destruct (measurements_uxD p); cbn in *; lia.
  - destruct (measurements_uxD p); cbn in *; [lia|reflexivity].
Qed.

(** ** The fabricated displacement field and the boundary conditions *)

Lemma fields_checked_up_to_64 : fields_checked_up_to 64 = true.
Proof. vm_compute. reflexivity. Qed.

Lemma fields_checked_up_to_spec (bound n : nat) (small : bool) (k : nat) :
  fields_checked_up_to bound = true ->
  (n <= bound)%nat ->
  (k <= n)%nat ->
  field_meets_conditions
    (nth k (measurements_uxD (with_observations n small)) 0 / W)
    (nth k (measurements_uxD (with_observations n small)) 0) = true.
Proof.
  unfold fields_checked_up_to. intros Hall Hn Hk.
  rewrite forallb_forall in Hall.
  assert (Hin_n : In n (seq 0 (bound + 1))) by (apply in_seq; lia).
  specialize (Hall _ Hin_n).
  rewrite forallb_forall in Hall.
  assert (Hin_small : In small [true; false])
    by (destruct small; simpl; auto).
  specialize (Hall _ Hin_small). cbv zeta in Hall.
  rewrite forallb_forall in Hall.
  apply Hall. apply in_seq. lia.
Qed.

(** After [measurement_setter(i)], for every index [i] and every number
    of observations up to 64 in both displacement configurations, the
    fabricated displacement field [u_msr] agrees with the Dirichlet
    conditions wherever they apply: its x-component equals the imposed
    displacement [uxD_msr] at every point with [x = W] and is zero at
    every point with [x = 0], and its y- and z-components are zero
    where [y = 0] and where [z = 0] (so all components vanish at the
    vertex [(0, 0, 0)], and the z-component at the vertex
    [(0, L, 0)]). *)
Theorem fabricated_field_meets_boundary_conditions
    (p : problem_parameters) (i : Z) (s : expression_parameters)
    (x : Point) :
  (NUM_OBSERVATIONS p <= 64)%nat ->
  (0 <= i <= Z.of_nat (NUM_OBSERVATIONS p))%Z ->
  u_msr_nu s = nu_target ->
  let s' := snd (measurement_setter p i s) in
  (x_0 x = W ->
   PrimFloat.eqb (fst (fst (u_msr_at s' x))) (uxD_msr_at s' x) = true) /\
  (x_0 x = 0 -> PrimFloat.eqb (fst (fst (u_msr_at s' x))) 0 = true) /\
  (x_1 x = 0 -> PrimFloat.eqb (snd (fst (u_msr_at s' x))) 0 = true) /\
  (x_2 x = 0 -> PrimFloat.eqb (snd (u_msr_at s' x)) 0 = true).
Proof.
  intros Hn Hi Hnu.
  rewrite measurement_setter_in_bounds by exact Hi.
  cbn [snd fst u_msr_at uxD_msr_at u_msr_ex u_msr_nu uxD_msr_value].
  rewrite Hnu.
  destruct (measurements_depend_on_observations p) as [_ HuxD].
  rewrite HuxD.
  pose proof (fields_checked_up_to_spec 64 (NUM_OBSERVATIONS p)
                (SMALL_DISPLACEMENTS p) (Z.to_nat i)
                fields_checked_up_to_64 Hn ltac:(lia)) as Hcheck.
  unfold field_meets_conditions in Hcheck.
  apply andb_prop in Hcheck as [Hcheck Hlateral].
  apply andb_prop in Hcheck as [Hright Hleft].
  repeat split; intros ->; assumption.
Qed.

Lemma fabricated_field_meets_boundary_conditions_witness :
  let s' := snd (measurement_setter source_parameters 2
                   initial_expression_parameters) in
  let x := {| x_0 := W; x_1 := L; x_2 := 0 |} in
  (x_0 x = W ->
   PrimFloat.eqb (fst (fst (u_msr_at s' x))) (uxD_msr_at s' x) = true) /\
  (x_0 x = 0 -> PrimFloat.eqb (fst (fst (u_msr_at s' x))) 0 = true) /\
  (x_1 x = 0 -> PrimFloat.eqb (snd (fst (u_msr_at s' x))) 0 = true) /\
  (x_2 x = 0 -> PrimFloat.eqb (snd (u_msr_at s' x)) 0 = true).
Proof.
  apply (fabricated_field_meets_boundary_conditions
           source_parameters 2 initial_expression_parameters
           {| x_0 := W; x_1 := L; x_2 := 0 |}).
  - simpl. lia.
  - simpl. lia.
  - reflexivity.
Defined.

(** ** The markers of the boundary facets *)

(** The three [mark] calls do not overwrite one another although the
    marked faces share edges: every boundary facet on the face [x = 0]
    ends with [id_subdomain_fix], every one on the face [x = W] with
    [id_subdomain_msr], every one on the face [y = L] with
    [id_subdomains_dic], every facet of the other three faces keeps the
    default 0, and so does every facet that is not on the boundary. *)
Theorem boundary_faces_keep_their_markers
    (f : box_face) (t : Point * Point * Point) :
  In t (face_triangles mesh f) ->
  marker_of boundary_markers (test_points t) true = face_marker f /\
  marker_of boundary_markers (test_points t) false = 0%nat.
Proof.
  intros Ht. split.
  - exact (faces_marked_as_meant_spec mesh f t
             faces_marked_as_meant_mesh Ht).
  - destruct t as [[a b] c]. reflexivity.
Qed.

Lemma boundary_faces_keep_their_markers_witness :
  let t := (face_vertex mesh face_y_max 19 0,
            face_vertex mesh face_y_max 20 0,
            face_vertex mesh face_y_max 19 1) in
  marker_of boundary_markers (test_points t) true = id_subdomains_dic /\
  marker_of boundary_markers (test_points t) false = 0%nat.
Proof.
  apply (boundary_faces_keep_their_markers face_y_max
           (face_vertex mesh face_y_max 19 0,
            face_vertex mesh face_y_max 20 0,
            face_vertex mesh face_y_max 19 1)).
  unfold face_triangles.
  apply in_flat_map. exists 19%nat. split; [apply in_seq; vm_compute; lia|].
  apply in_flat_map. exists 0%nat. split; [apply in_seq; vm_compute; lia|].
  left. reflexivity.
Defined.

(** ** The two cost formulations compared *)

Local Open Scope R_scope.

Lemma form_value_app
    (gradient : (mat -> R) -> mat -> mat)
    (point : Type) (field : point -> fields)
    (integral_over : Measure -> (point -> R) -> R) (f g : Form) :
  form_value gradient point field integral_over (f ++ g)
  = form_value gradient point field integral_over f
    + form_value gradient point field integral_over g.
Proof.
  unfold form_value. induction f as [|i f IH]; cbn [List.app map fold_right].
  - ring.
  - rewrite IH. ring.
Qed.

(** In the "constraint" formulation the cost [Q] is the displacement
    misfit [J_u] of the "cost" formulation plus the integral, over the
    traction-measurement boundary, of the traction misfit weighted by
    the constraint multiplier; there is one multiplier per traction
    measurement and no separate constraint form [L]. *)
Theorem constraint_formulation_adds_weighted_misfit
    (gradient : (mat -> R) -> mat -> mat)
    (point : Type) (field : point -> fields)
    (integral_over : Measure -> (point -> R) -> R)
    (p : problem_parameters) :
  FORCE_COST_FORMULATION_METHOD p = "constraint"%string ->
  exists cf,
    select_cost_formulation p = Return cf /\
    length (constraint_multipliers cf) = length using_subdims_T_msr /\
    L_constraint cf = None /\
    summed_value gradient point field integral_over (Q cf)
    = summed_value gradient point field integral_over J_u
      + integral_over ds_msr_T
          (fun x =>
             at_multiplier (field x) 0
             * traction_misfit
                 (traction
                    (gradient
                       (neo_hookean (at_E (field x)) (at_nu (field x)))
                       (deformation_gradient (field x)))
                    (at_N (field x)))
                 (field x) 0).
Proof.
  intros Hmethod. unfold select_cost_formulation. rewrite Hmethod.
  cbn [String.eqb Ascii.eqb Bool.eqb].
  eexists. split; [reflexivity|].
  cbn [constraint_multipliers L_constraint Q].
  split; [reflexivity|]. split; [reflexivity|].
  rewrite J_u_integrals.
  change (add_summed (a_form ?f) J_c) with (add_summed (a_form f) J_c).
  unfold J_c, add_summed, new_constraint_multipliers, C, zip,
    using_subdims_T_msr.
  cbn [length seq map combine sum_forms fold_left add_form fst snd
       scale_form integrate_over integrand measure].
  unfold summed_value. rewrite form_value_app. f_equal.
  unfold form_value. cbn [map fold_right integrand measure].
  rewrite Rplus_0_r. f_equal.
  apply functional_extensionality. intros x.
  unfold integrand_at. cbn [eval coefficient_value].
  rewrite eval_T_obs. cbn [T_msr eval coefficient_value component].
  reflexivity.
Qed.

Lemma constraint_formulation_adds_weighted_misfit_witness :
  exists cf,
    select_cost_formulation constraint_parameters = Return cf /\
    length (constraint_multipliers cf) = length using_subdims_T_msr /\
    L_constraint cf = None /\
    summed_value (fun _ X => X) unit (fun _ => sample_fields)
      (fun _ g => g tt) (Q cf)
    = summed_value (fun _ X => X) unit (fun _ => sample_fields)
        (fun _ g => g tt) J_u
      + at_multiplier sample_fields 0
        * traction_misfit
            (traction (deformation_gradient sample_fields)
                      (at_N sample_fields))
            sample_fields 0.
Proof.
  exact (constraint_formulation_adds_weighted_misfit
           (fun _ X => X) unit (fun _ => sample_fields) (fun _ g => g tt)
           constraint_parameters eq_refl).
Defined.

Local Close Scope R_scope.

(** ** Which solver members a run uses *)

(** In every run that gets past the cost formulation, each of the eight
    listed methods and [set_parameters_inverse_solver] is called; the
    attribute [observation_times] is read exactly in a run as the main
    program with [SAVE_RESULTS] set, and [observe_u(t, copy=False)] is
    called exactly for the times [t] that attribute holds in such a
    run. *)
Theorem solver_members_used
    (p : problem_parameters) (cf : cost_formulation)
    (run_as_main : bool) (solver_times : list Z) :
  select_cost_formulation p = Return cf ->
  (forall method,
     In method (listed_methods ++ ["set_parameters_inverse_solver"%string]) ->
     exists args,
       In (call "inverse_solver" method args)
          (solver_uses p run_as_main solver_times)) /\
  (In (attribute "inverse_solver" "observation_times")
      (solver_uses p run_as_main solver_times)
   <-> run_as_main = true /\ SAVE_RESULTS p = true) /\
  (forall t,
     In (call "inverse_solver" "observe_u"
           [arg_time t; arg_keyword "copy" false])
        (solver_uses p run_as_main solver_times)
     <-> run_as_main = true /\ SAVE_RESULTS p = true /\ In t solver_times).
Proof.
  intros Hcf. unfold solver_uses. rewrite Hcf.
  assert (Himport_attr :
            ~ In (attribute "inverse_solver" "observation_times")
                 (solver_uses_at_import p cf)).
  { cbn. intuition discriminate. }
  assert (Himport_u :
            forall t, ~ In (call "inverse_solver" "observe_u"
                              [arg_time t; arg_keyword "copy" false])
                           (solver_uses_at_import p cf)).
  { intros t. cbn. intuition discriminate. }
  split; [|split].
  - intros method Hm. cbn in Hm.
    repeat (destruct Hm as [<-|Hm];
            [eexists; apply in_or_app; left; cbn; in_list|]).
    destruct Hm.
  - rewrite in_app_iff. unfold solver_uses_in_main.
    destruct run_as_main, (PLOT_RESULTS p), (SAVE_RESULTS p); cbn;
      intuition (try discriminate; auto).
  - intros t. rewrite in_app_iff. unfold solver_uses_in_main.
    specialize (Himport_u t).
    destruct run_as_main, (PLOT_RESULTS p), (SAVE_RESULTS p);
      cbn [orb In]; rewrite ?in_map_iff;
      (split;
       [ intros [Himp|Hmain]; [contradiction|];
         try contradiction;
         try (destruct Hmain as [Hattr|(t' & Ht' & Hin)];
              [discriminate Hattr|injection Ht' as ->; auto])
       | intros (Hrun & Hsave & Hin); try discriminate;
         right; right; exists t; auto ]).
Qed.

Lemma solver_members_used_witness :
  In (attribute "inverse_solver" "observation_times")
     (solver_uses source_parameters true [1; 2; 3; 4]%Z)
  <-> true = true /\ SAVE_RESULTS source_parameters = true.
Proof.
  apply (solver_members_used source_parameters
           {| constraint_multipliers := [];
              Q := J_u;
              L_constraint := nth_error C 0 |}
           true [1; 2; 3; 4]%Z).
  reflexivity.
Defined.

(** ** Saving the results *)

Lemma list_ascii_of_string_append (a b : string) :
  list_ascii_of_string (a ++ b)
  = (list_ascii_of_string a ++ list_ascii_of_string b)%list.
Proof.
  induction a as [|c a IH]; cbn; [reflexivity|]. now rewrite IH.
Qed.

Lemma list_ascii_of_string_injective (a b : string) :
  list_ascii_of_string a = list_ascii_of_string b -> a = b.
Proof.
  intros Hab.
  rewrite <- (string_of_list_ascii_of_string a),
          <- (string_of_list_ascii_of_string b).
  now rewrite Hab.
Qed.

Lemma append_cancel_r (a b s : string) :
  (a ++ s)%string = (b ++ s)%string -> a = b.
Proof.
  intros Hab. apply list_ascii_of_string_injective.
  apply (f_equal list_ascii_of_string) in Hab.
  rewrite !list_ascii_of_string_append in Hab.
  now apply app_inv_tail in Hab.
Qed.

Lemma png_is_not_pdf (a b : string) :
  (a ++ ".png")%string <> (b ++ ".pdf")%string.
Proof.
  intros Hab. apply (f_equal list_ascii_of_string) in Hab.
  rewrite !list_ascii_of_string_append in Hab. cbn in Hab.
  change (list_ascii_of_string a ++ ["."; "p"; "n"; "g"]%char)%list
    with (list_ascii_of_string a ++ ["."; "p"; "n"]%char ++ ["g"%char])%list
    in Hab.
  change (list_ascii_of_string b ++ ["."; "p"; "d"; "f"]%char)%list
    with (list_ascii_of_string b ++ ["."; "p"; "d"]%char ++ ["f"%char])%list
    in Hab.
  rewrite !app_assoc in Hab.
  apply app_inj_tail in Hab as [_ Hgf]. discriminate Hgf.
Qed.

Lemma prefix_append (a b : string) : prefix a (a ++ b) = true.
Proof.
  induction a as [|c a IH]; cbn.
  - now destruct b.
  - destruct (ascii_dec c c) as [_|Hne]; [exact IH|contradiction].
Qed.

(** The separator [os.path.join] inserts after a first component. *)
Lemma path_join_relative (a b : string) :
  starts_with_slash b = false ->
  exists sep, path_join a b = (a ++ sep ++ b)%string.
Proof.
  intros Hrel. unfold path_join. rewrite Hrel.
  destruct (String.eqb a "" || ends_with_slash a)%bool.
  - exists ""%string. reflexivity.
  - exists "/"%string. reflexivity.
Qed.

Lemma path_join_injective (a b b' : string) :
  starts_with_slash b = false ->
  starts_with_slash b' = false ->
  path_join a b = path_join a b' -> b = b'.
Proof.
  intros Hb Hb'. unfold path_join. rewrite Hb, Hb'.
  destruct (String.eqb a "" || ends_with_slash a)%bool; intros Heq.
  - now apply append_cancel_l in Heq.
  - apply append_cancel_l in Heq. now apply append_cancel_l in Heq.
Qed.

Lemma zip_fst_snd {A B} (l : list (A * B)) :
  zip (map fst l) (map snd l) = l.
Proof.
  unfold zip. induction l as [|[a b] l IH]; cbn; [reflexivity|].
  now rewrite IH.
Qed.

Lemma saved_paths_app (e1 e2 : list effect) :
  saved_paths (e1 ++ e2) = (saved_paths e1 ++ saved_paths e2)%list.
Proof. apply flat_map_app. Qed.

Lemma saved_paths_of_writes (solver_times : list Z) :
  saved_paths (map write_displacement solver_times) = [].
Proof. induction solver_times; cbn; auto. Qed.

(** The figure files of a run that saves: for each figure, in order,
    its PNG and its PDF file in the results directory. *)
Lemma saved_paths_main_effects
    (p : problem_parameters) (PROBLEM_DIR : string)
    (results_dir_exists : bool) (figures : list (nat * string))
    (solver_times : list Z) :
  SAVE_RESULTS p = true ->
  saved_paths (main_effects p PROBLEM_DIR results_dir_exists figures
                 solver_times)
  = flat_map
      (fun name =>
         [ (path_join (RESULTS_DIR PROBLEM_DIR) name ++ ".png")%string;
           (path_join (RESULTS_DIR PROBLEM_DIR) name ++ ".pdf")%string ])
      (map snd figures).
Proof.
  intros Hsave. unfold main_effects. rewrite Hsave, orb_true_r.
  cbv zeta.
  rewrite !saved_paths_app.
  change (saved_paths plot_everything) with (@nil string).
  rewrite saved_paths_of_writes.
  replace (saved_paths
             (if negb results_dir_exists
              then [makedirs (RESULTS_DIR PROBLEM_DIR)] else []))
    with (@nil string) by (destruct results_dir_exists; reflexivity).
  replace (saved_paths
             (if negb (PLOT_RESULTS p) then [close_all_figures] else []))
    with (@nil string) by (destruct (PLOT_RESULTS p); reflexivity).
  change (saved_paths [open_output_file ?f]) with (@nil string).
  cbn [List.app]. rewrite !app_nil_r.
  unfold save_figures. rewrite zip_fst_snd.
  unfold saved_paths.
  induction figures as [|[h name] figures IH]; [reflexivity|].
  cbn [flat_map map fst snd List.app]. now rewrite IH.
Qed.

Lemma string_append_assoc (a b c : string) :
  ((a ++ b) ++ c)%string = (a ++ (b ++ c))%string.
Proof.
  induction a as [|x a IH]; cbn; [reflexivity|]. now rewrite IH.
Qed.

Lemma path_join_prefix (a b suffix : string) :
  starts_with_slash b = false ->
  prefix a (path_join a b ++ suffix) = true.
Proof.
  intros Hrel. destruct (path_join_relative a b Hrel) as [sep ->].
  rewrite string_append_assoc. apply prefix_append.
Qed.

(** The figure files written for a list of relative, pairwise distinct
    figure names are pairwise distinct. *)
Lemma figure_paths_distinct (dir : string) (names : list string) :
  (forall name, In name names -> starts_with_slash name = false) ->
  NoDup names ->
  NoDup (flat_map
           (fun name => [ (path_join dir name ++ ".png")%string;
                          (path_join dir name ++ ".pdf")%string ])
           names).
Proof.
  intros Hrel Hnames.
  induction names as [|name names IH]; [constructor|].
  apply NoDup_cons_iff in Hnames as [Hfresh Hnames].
  assert (Hrel' : forall n, In n names -> starts_with_slash n = false)
    by (intros n Hn; apply Hrel; now right).
  assert (Hname : starts_with_slash name = false)
    by (apply Hrel; now left).
  specialize (IH Hrel' Hnames).
  assert (Hother :
            forall suffix,
              (suffix = ".png" \/ suffix = ".pdf")%string ->
              ~ In (path_join dir name ++ suffix)%string
                   (flat_map
                      (fun n => [ (path_join dir n ++ ".png")%string;
                                  (path_join dir n ++ ".pdf")%string ])
                      names)).
  { intros suffix Hsuffix Hin.
    apply in_flat_map in Hin as (n & Hn & Hpath).
    assert (Hsame : path_join dir name = path_join dir n).
    { destruct Hpath as [Hpath|[Hpath|[]]];
        destruct Hsuffix as [-> | ->];
        first [ now apply append_cancel_r in Hpath
              | exfalso; eapply png_is_not_pdf; eauto
              | exfalso; eapply png_is_not_pdf; symmetry; eauto ]. }
    apply path_join_injective in Hsame; [|exact Hname|now apply Hrel'].
    subst n. contradiction. }
  cbn [flat_map List.app]. constructor; [|constructor].
  - intros [Hsame|Hin].
    + symmetry in Hsame. now apply png_is_not_pdf in Hsame.
    + apply (Hother ".png"%string); auto.
  - apply (Hother ".pdf"%string). auto.
  - exact IH.
Qed.

(** When results are saved and the figures have relative, pairwise
    distinct names, every figure is written to two files, no file is
    written twice, and every file lies in the results directory. *)
Theorem saved_figures_are_distinct_files_in_results_dir
    (p : problem_parameters) (PROBLEM_DIR : string)
    (results_dir_exists : bool) (figures : list (nat * string))
    (solver_times : list Z) :
  SAVE_RESULTS p = true ->
  (forall name, In name (map snd figures) ->
                starts_with_slash name = false) ->
  NoDup (map snd figures) ->
  let paths :=
    saved_paths (main_effects p PROBLEM_DIR results_dir_exists figures
                   solver_times) in
  length paths = (2 * length figures)%nat /\
  NoDup paths /\
  (forall path, In path paths ->
                prefix (RESULTS_DIR PROBLEM_DIR) path = true).
Proof.
  intros Hsave Hrel Hnames paths. subst paths.
  rewrite saved_paths_main_effects by exact Hsave.
  split; [|split].
  - clear. induction figures as [|[h name] figures IH]; cbn in *; lia.
  - now apply figure_paths_distinct.
  - intros path Hin. apply in_flat_map in Hin as (name & Hname & Hpath).
    destruct Hpath as [<-|[<-|[]]];
      apply path_join_prefix; now apply Hrel.
Qed.

Lemma saved_figures_are_distinct_files_in_results_dir_witness :
  let paths :=
    saved_paths
      (main_effects source_parameters "examples/basic_example_1" false
         [ (1%nat, "Model Cost"%string);
           (2%nat, "Model Cost Derivatives"%string) ]
         [1; 2; 3; 4]%Z) in
  length paths = 4%nat /\
  NoDup paths /\
  (forall path, In path paths ->
                prefix (RESULTS_DIR "examples/basic_example_1") path
                = true).
Proof.
  apply (saved_figures_are_distinct_files_in_results_dir
           source_parameters "examples/basic_example_1" false
           [ (1%nat, "Model Cost"%string);
             (2%nat, "Model Cost Derivatives"%string) ]
           [1; 2; 3; 4]%Z).
  - reflexivity.
  - intros name Hname. cbn in Hname.
    destruct Hname as [<-|[<-|[]]]; reflexivity.
  - cbn. repeat constructor; cbn; intuition discriminate.
Defined.

Lemma starts_with_slash_append (a b : string) :
  starts_with_slash a = true -> starts_with_slash (a ++ b) = true.
Proof. destruct a; [discriminate|auto]. Qed.

(** A path that does not start with a slash, and is not empty, is no
    prefix of one that does. *)
Lemma relative_is_no_prefix_of_absolute (a b : string) :
  a <> ""%string ->
  starts_with_slash a = false ->
  starts_with_slash b = true ->
  prefix a b = false.
Proof.
  destruct a as [|c a]; [congruence|]. intros _ Ha.
  destruct b as [|c' b]; [discriminate|]. intros Hb.
  cbn in *. apply Ascii.eqb_eq in Hb. subst c'.
  destruct (ascii_dec c "/") as [->|_]; [discriminate Ha|reflexivity].
Qed.

(** The results directory of a relative script directory is a relative
    path. *)
Lemma RESULTS_DIR_relative (PROBLEM_DIR : string) :
  starts_with_slash PROBLEM_DIR = false ->
  RESULTS_DIR PROBLEM_DIR <> ""%string /\
  starts_with_slash (RESULTS_DIR PROBLEM_DIR) = false.
Proof.
  intros Hrel. unfold RESULTS_DIR, path_join.
  cbn [starts_with_slash Ascii.eqb Bool.eqb].
  destruct PROBLEM_DIR as [|c dir].
  - cbn. split; [discriminate|reflexivity].
  - destruct (String.eqb (String c dir) "" || ends_with_slash (String c dir))%bool;
      cbn [append]; split; first [discriminate|exact Hrel].
Qed.

Lemma in_save_figures (dir : string) (figures : list (nat * string))
    (e : effect) :
  In e (save_figures dir (map fst figures) (map snd figures)) <->
  exists h name,
    In (h, name) figures /\
    (e = savefig h (path_join dir name ++ ".png")%string \/
     e = savefig h (path_join dir name ++ ".pdf")%string).
Proof.
  unfold save_figures. rewrite zip_fst_snd, in_flat_map. split.
  - intros ([h name] & Hin & He). exists h, name. cbn in He.
    intuition auto.
  - intros (h & name & Hin & He). exists (h, name). cbn.
    intuition auto.
Qed.

(** Where an effect of the main program comes from. *)
Lemma in_main_effects
    (p : problem_parameters) (PROBLEM_DIR : string)
    (results_dir_exists : bool) (figures : list (nat * string))
    (solver_times : list Z) (e : effect) :
  In e (main_effects p PROBLEM_DIR results_dir_exists figures solver_times)
  <->
  ((PLOT_RESULTS p || SAVE_RESULTS p)%bool = true /\ In e plot_everything)
  \/ (SAVE_RESULTS p = true /\
      ((results_dir_exists = false /\
        e = makedirs (RESULTS_DIR PROBLEM_DIR))
       \/ In e (save_figures (RESULTS_DIR PROBLEM_DIR)
                  (map fst figures) (map snd figures))
       \/ (PLOT_RESULTS p = false /\ e = close_all_figures)
       \/ e = open_output_file
                (path_join (path_join (RESULTS_DIR PROBLEM_DIR) "pvd")
                           "u.pvd")
       \/ In e (map write_displacement solver_times))).
Proof.
  unfold main_effects.
  destruct (PLOT_RESULTS p), (SAVE_RESULTS p), results_dir_exists;
    cbn [orb negb]; rewrite ?in_app_iff; cbn [In];
    intuition (try discriminate; auto).
Qed.

Lemma in_plot_everything (e : effect) :
  In e plot_everything <->
  e = close_all_figures \/
  exists function figname,
    In (function, figname) plotting_calls /\
    e = plot_figure function figname.
Proof.
  unfold plot_everything. cbn [In]. rewrite in_map_iff. split.
  - intros [<-|([function figname] & <- & Hin)]; [now left|].
    right. exists function, figname. auto.
  - intros [->|(function & figname & Hin & ->)]; [now left|].
    right. exists (function, figname). auto.
Qed.

Lemma closings_app (e1 e2 : list effect) :
  closings (e1 ++ e2) = (closings e1 + closings e2)%nat.
Proof. unfold closings. now rewrite filter_app, length_app. Qed.

Lemma closings_save_figures (dir : string) (fig_handles : list nat)
    (fig_names : list string) :
  closings (save_figures dir fig_handles fig_names) = 0%nat.
Proof.
  unfold save_figures, closings.
  induction (zip fig_handles fig_names) as [|hn l IH]; [reflexivity|].
  exact IH.
Qed.

Lemma closings_writes (solver_times : list Z) :
  closings (map write_displacement solver_times) = 0%nat.
Proof.
  unfold closings. induction solver_times as [|t l IH]; [reflexivity|].
  exact IH.
Qed.

(** A figure whose name starts with a slash is saved under that name
    itself, with the extensions [.png] and [.pdf]: [os.path.join] drops
    the results directory before an absolute component.  The directory
    of the script is a relative path (it comes from [os.path.relpath]),
    so the path of the results directory does not start with a slash
    and the two files are saved at paths that do not start with the
    path of the results directory. *)
Theorem absolute_figure_name_escapes_results_dir
    (p : problem_parameters) (PROBLEM_DIR : string)
    (results_dir_exists : bool) (figures : list (nat * string))
    (solver_times : list Z) (h : nat) (name : string) :
  SAVE_RESULTS p = true ->
  starts_with_slash PROBLEM_DIR = false ->
  In (h, name) figures ->
  starts_with_slash name = true ->
  let effects :=
    main_effects p PROBLEM_DIR results_dir_exists figures solver_times in
  path_join (RESULTS_DIR PROBLEM_DIR) name = name /\
  In (savefig h (name ++ ".png")%string) effects /\
  In (savefig h (name ++ ".pdf")%string) effects /\
  In (name ++ ".png")%string (saved_paths effects) /\
  In (name ++ ".pdf")%string (saved_paths effects) /\
  prefix (RESULTS_DIR PROBLEM_DIR) (name ++ ".png") = false /\
  prefix (RESULTS_DIR PROBLEM_DIR) (name ++ ".pdf") = false.
Proof.
  intros Hsave Hdir Hin Habs effects. subst effects.
  assert (Hname : In name (map snd figures))
    by (apply in_map_iff; exists (h, name); auto).
  assert (Hjoin : path_join (RESULTS_DIR PROBLEM_DIR) name = name)
    by (unfold path_join; now rewrite Habs).
  destruct (RESULTS_DIR_relative PROBLEM_DIR Hdir) as [Hnonempty Hrel].
  split; [exact Hjoin|].
  split; [|split].
  - apply in_main_effects. right. split; [exact Hsave|].
    right. left. apply in_save_figures. exists h, name.
    rewrite Hjoin. auto.
  - apply in_main_effects. right. split; [exact Hsave|].
    right. left. apply in_save_figures. exists h, name.
    rewrite Hjoin. auto.
  - rewrite saved_paths_main_effects by exact Hsave.
    repeat split;
      try (apply in_flat_map; exists name; (split; [exact Hname|]);
           rewrite Hjoin; cbn; auto; fail);
      apply relative_is_no_prefix_of_absolute;
      auto using starts_with_slash_append.
Qed.

Lemma absolute_figure_name_escapes_results_dir_witness :
  In (savefig 7 "/tmp/cost.png")
     (main_effects source_parameters "examples" true
        [(7%nat, "/tmp/cost"%string)] []) /\
  prefix (RESULTS_DIR "examples") "/tmp/cost.png" = false.
Proof.
  pose proof (absolute_figure_name_escapes_results_dir
                source_parameters "examples" true
                [(7%nat, "/tmp/cost"%string)] [] 7 "/tmp/cost"
                eq_refl eq_refl (or_introl eq_refl) eq_refl) as Habs.
  cbv zeta in Habs.
  destruct Habs as (_ & Hpng & _ & _ & _ & Houtside & _).
  split; [exact Hpng|exact Houtside].
Defined.

(** What the two switches allow in the block they guard.  With neither
    switch set the block does nothing to figures or files, and without
    [SAVE_RESULTS] it writes nothing: no directory, no figure file, no
    output file, no displacement.  With one of the switches set it runs
    [plot_everything] first, which closes every open figure and then
    makes the seven figures, and no figure is made afterwards.  With
    [SAVE_RESULTS] the results directory is created exactly when it is
    missing, and then right after the plotting, each figure is saved as
    its PNG and its PDF file and nothing else is, and the displacement
    is written exactly at the solver's observation times.  The figures
    are closed once at the start of [plot_everything] whenever a switch
    is set, and once more exactly when [SAVE_RESULTS] is set and
    [PLOT_RESULTS] is not; this second closing comes after every figure
    has been saved, and nothing closes the figures between the plotting
    and the saving. *)
Theorem main_effects_follow_the_switches
    (p : problem_parameters) (PROBLEM_DIR : string)
    (results_dir_exists : bool) (figures : list (nat * string))
    (solver_times : list Z) :
  let effects :=
    main_effects p PROBLEM_DIR results_dir_exists figures solver_times in
  (PLOT_RESULTS p = false /\ SAVE_RESULTS p = false <-> effects = []) /\
  (forall e, In e effects -> writes_files e = true ->
             SAVE_RESULTS p = true) /\
  (exists rest,
     effects
     = ((if (PLOT_RESULTS p || SAVE_RESULTS p)%bool
         then plot_everything else []) ++ rest)%list /\
     forall function figname, ~ In (plot_figure function figname) rest) /\
  (forall function figname,
     In (plot_figure function figname) effects <->
     (PLOT_RESULTS p || SAVE_RESULTS p)%bool = true /\
     In (function, figname) plotting_calls) /\
  (forall dir,
     In (makedirs dir) effects <->
     SAVE_RESULTS p = true /\ results_dir_exists = false /\
     dir = RESULTS_DIR PROBLEM_DIR) /\
  (SAVE_RESULTS p = true -> results_dir_exists = false ->
   exists rest,
     effects
     = (plot_everything ++ makedirs (RESULTS_DIR PROBLEM_DIR) :: rest)%list)
  /\
  (forall h path,
     In (savefig h path) effects <->
     SAVE_RESULTS p = true /\
     exists name,
       In (h, name) figures /\
       (path = (path_join (RESULTS_DIR PROBLEM_DIR) name ++ ".png")%string \/
        path = (path_join (RESULTS_DIR PROBLEM_DIR) name ++ ".pdf")%string))
  /\
  (forall t,
     In (write_displacement t) effects <->
     SAVE_RESULTS p = true /\ In t solver_times) /\
  (closings effects
   = ((if (PLOT_RESULTS p || SAVE_RESULTS p)%bool then 1 else 0)
      + (if (SAVE_RESULTS p && negb (PLOT_RESULTS p))%bool then 1 else 0))%nat)
  /\
  (SAVE_RESULTS p = true ->
   exists saving after,
     effects
     = (plot_everything ++ saving
        ++ (if negb (PLOT_RESULTS p) then [close_all_figures] else [])
        ++ after)%list /\
     closings saving = 0%nat /\
     closings after = 0%nat /\
     forall h path, In (savefig h path) effects ->
                    In (savefig h path) saving).
Proof.
  intros effects.
  assert (Hsaves :
            forall e,
              In e (save_figures (RESULTS_DIR PROBLEM_DIR)
                      (map fst figures) (map snd figures)) ->
              exists h path, e = savefig h path).
  { intros e He. apply in_save_figures in He as (h & name & _ & [->| ->]);
      eauto. }
  assert (Hwrites :
            forall e, In e (map write_displacement solver_times) ->
                      exists t, e = write_displacement t /\ In t solver_times).
  { intros e He. apply in_map_iff in He as (t & <- & Ht). eauto. }
  assert (Hplots :
            forall e, In e plot_everything -> writes_files e = false).
  { intros e He. apply in_plot_everything in He
      as [->|(function & figname & _ & ->)]; reflexivity. }
  split; [|split; [|split; [|split; [|split; [|split; [|split;
    [|split; [|split]]]]]]]].
  - subst effects. unfold main_effects.
    destruct (PLOT_RESULTS p), (SAVE_RESULTS p);
      cbn [orb]; unfold plot_everything; cbn [List.app];
      (split; intros Hnone;
       [destruct Hnone; try discriminate; reflexivity
       |try discriminate Hnone; auto]).
  - intros e He Hwrite. apply in_main_effects in He as [[_ He]|[Hsave _]].
    + apply Hplots in He. congruence.
    + exact Hsave.
  - subst effects. unfold main_effects.
    destruct (PLOT_RESULTS p || SAVE_RESULTS p)%bool.
    + eexists. split; [reflexivity|].
      intros function figname Hin.
      destruct (SAVE_RESULTS p); [|exact Hin].
      rewrite !in_app_iff in Hin.
      destruct Hin as [Hin|[Hin|[Hin|[Hin|Hin]]]].
      * destruct results_dir_exists; cbn in Hin;
          [exact Hin|destruct Hin as [Hin|[]]; discriminate Hin].
      * apply Hsaves in Hin as (h & path & Hin). discriminate Hin.
      * destruct (PLOT_RESULTS p); cbn in Hin;
          [exact Hin|destruct Hin as [Hin|[]]; discriminate Hin].
      * destruct Hin as [Hin|[]]. discriminate Hin.
      * apply Hwrites in Hin as (t & Hin & _). discriminate Hin.
    + exists []. split; [reflexivity|]. intros function figname [].
  - intros function figname. unfold effects. rewrite in_main_effects.
    rewrite in_plot_everything. split.
    + intros [[Hany [Hclose|(function' & figname' & Hcall & Heq)]]
             |[_ [[_ Heq]|[Hin|[[_ Heq]|[Heq|Hin]]]]]];
        try discriminate.
      * injection Heq as -> ->. auto.
      * apply Hsaves in Hin as (h & path & Hin). discriminate Hin.
      * apply Hwrites in Hin as (t & Hin & _). discriminate Hin.
    + intros [Hany Hcall]. left. split; [exact Hany|].
      right. exists function, figname. auto.
  - intros dir. unfold effects. rewrite in_main_effects.
    rewrite in_plot_everything. split.
    + intros [[Hany [Hclose|(function' & figname' & Hcall & Heq)]]
             |[Hsave [[Hmissing Heq]|[Hin|[[_ Heq]|[Heq|Hin]]]]]];
        try discriminate.
      * injection Heq as ->. auto.
      * apply Hsaves in Hin as (h & path & Hin). discriminate Hin.
      * apply Hwrites in Hin as (t & Hin & _). discriminate Hin.
    + intros (Hsave & Hmissing & ->). right. split; [exact Hsave|].
      left. auto.
  - intros Hsave Hmissing. subst effects. unfold main_effects.
    rewrite Hsave, Hmissing, orb_true_r. cbn [negb List.app].
    eexists. reflexivity.
  - intros h path. unfold effects. rewrite in_main_effects.
    rewrite in_plot_everything, in_save_figures. split.
    + intros [[Hany [Hclose|(function' & figname' & Hcall & Heq)]]
             |[Hsave [[Hmissing Heq]
                     |[(h' & name & Hin & Heq)|[[_ Heq]|[Heq|Hin]]]]]];
        try discriminate.
      * split; [exact Hsave|]. exists name.
        destruct Heq as [Heq|Heq]; injection Heq as -> ->; auto.
      * apply Hwrites in Hin as (t & Hin & _). discriminate Hin.
    + intros (Hsave & name & Hin & Hpath). right. split; [exact Hsave|].
      right. left. exists h, name. split; [exact Hin|].
      destruct Hpath as [-> | ->]; auto.
  - intros t. unfold effects. rewrite in_main_effects.
    rewrite in_plot_everything. split.
    + intros [[Hany [Hclose|(function' & figname' & Hcall & Heq)]]
             |[Hsave [[Hmissing Heq]|[Hin|[[_ Heq]|[Heq|Hin]]]]]];
        try discriminate.
      * apply Hsaves in Hin as (h & path & Hin). discriminate Hin.
      * apply Hwrites in Hin as (t' & Hin & Ht').
        injection Hin as ->. auto.
    + intros [Hsave Hin]. right. split; [exact Hsave|].
      do 4 right. now apply in_map.
  - subst effects. unfold main_effects.
    destruct (PLOT_RESULTS p), (SAVE_RESULTS p), results_dir_exists;
      cbn [orb andb negb]; rewrite ?closings_app;
      rewrite ?closings_save_figures, ?closings_writes; reflexivity.
  - intros Hsave. subst effects. unfold main_effects.
    rewrite Hsave, orb_true_r.
    exists ((if negb results_dir_exists
             then [makedirs (RESULTS_DIR PROBLEM_DIR)] else [])
            ++ save_figures (RESULTS_DIR PROBLEM_DIR)
                 (map fst figures) (map snd figures))%list.
    exists (open_output_file
              (path_join (path_join (RESULTS_DIR PROBLEM_DIR) "pvd") "u.pvd")
            :: map write_displacement solver_times).
    split; [now rewrite <- !app_assoc|].
    split; [|split].
    + rewrite closings_app, closings_save_figures.
      destruct results_dir_exists; reflexivity.
    + change (closings (map write_displacement solver_times) = 0%nat).
      apply closings_writes.
    + intros h path Hin. rewrite !in_app_iff in Hin.
      rewrite in_app_iff.
      destruct Hin as [Hin|[Hin|[Hin|[Hin|[Hin|Hin]]]]]; auto.
      * apply in_plot_everything in Hin
          as [Hin|(function & figname & _ & Hin)]; discriminate Hin.
      * destruct (PLOT_RESULTS p); cbn in Hin;
          [destruct Hin|destruct Hin as [Hin|[]]; discriminate Hin].
      * destruct Hin as [Hin|[]]. discriminate Hin.
      * apply Hwrites in Hin as (t & Hin & _). discriminate Hin.
Qed.
